(** * fs_tool: read-only inspection of WAL directories and tablet metadata

    Shallow embedding of [src/yb/tools/fs_tool.cc].  Every method of
    [FsTool] is a computation in a small monad that threads the two output
    streams of the process (standard output and the glog stream) and stops
    at the first non-OK [Status], the way [RETURN_NOT_OK] does.  The file
    system, the log reader and the tablet layer are collaborators: they are
    represented by what the tool observes of them. *)

From Stdlib Require Import String Ascii List Bool Arith ZArith NArith Lia.
Import ListNotations.
Open Scope list_scope.
Open Scope string_scope.

(** ** Status *)

(** Modelled from the spec: [yb/util/status.h] is not part of the sources.
    The error kinds are the taxonomy of the specification (section 7):
    NotFound, Corruption, Uninitialized and IOError for every other
    failure; a status carries its kind and a human-readable message. *)
Inductive Code : Type :=
  | NotFound
  | Corruption
  | Uninitialized
  | IOError.

(** The result of a fallible call: the value it yields through its out
    parameter, or the failed status. *)
Inductive Result (A : Type) : Type :=
  | Ok (a : A)
  | Err (c : Code) (msg : string).
Arguments Ok {A} a.
Arguments Err {A} c msg.

Definition Status : Type := Result unit.
Definition OK : Status := Ok tt.

Definition ok {A} (r : Result A) : bool :=
  match r with Ok _ => true | Err _ _ => false end.

Definition IsUninitialized {A} (r : Result A) : bool :=
  match r with Err Uninitialized _ => true | _ => false end.

Definition IsCorruption {A} (r : Result A) : bool :=
  match r with Err Corruption _ => true | _ => false end.

Definition IsNotFound {A} (r : Result A) : bool :=
  match r with Err NotFound _ => true | _ => false end.

(** The message of a failed status (empty for OK). *)
Definition message {A} (r : Result A) : string :=
  match r with Ok _ => "" | Err _ msg => msg end.

(** Modelled from the spec: [RETURN_NOT_OK_PREPEND] and
    [Status::CloneAndPrepend] come with [yb/util/status.h].  A failure is
    "propagated to the caller with the path attached", "with context": the
    status keeps its kind, and its message becomes the context, a colon and
    the former message. *)
Definition CloneAndPrepend {A} (r : Result A) (ctx : string) : Result A :=
  match r with
  | Ok a => Ok a
  | Err c msg => Err c (ctx ++ ": " ++ msg)
  end.

(** ** Output streams *)

(** A line handed to glog: [LOG(ERROR)] or [VLOG(n)]. *)
Inductive LogLine : Type :=
  | LOG_ERROR (text : string)
  | VLOG (level : nat) (text : string).

(** The state the tool acts on.  [cout] holds the chunks written to
    standard output, oldest first, one chunk per output statement;
    [std::endl] is the newline that ends a chunk. *)
Record World : Type := mkWorld {
  cout : list string;
  glog : list LogLine
}.

Definition endl : string := String (ascii_of_nat 10) "".
Definition tab : string := String (ascii_of_nat 9) "".

(** The byte stream standard output has received. *)
Definition cout_text (w : World) : string := String.concat "" (cout w).

(** ** The monad of the tool's methods *)

Definition M (A : Type) : Type := World -> Result A * World.

Definition ret {A} (a : A) : M A := fun w => (Ok a, w).

Definition fail {A} (c : Code) (msg : string) : M A := fun w => (Err c msg, w).

Definition lift {A} (r : Result A) : M A := fun w => (r, w).

Definition bind {A B} (m : M A) (k : A -> M B) : M B :=
  fun w =>
    match m w with
    | (Ok a, w') => k a w'
    | (Err c msg, w') => (Err c msg, w')
    end.

Notation "x <- m ;; k" := (bind m (fun x => k))
  (at level 61, m at next level, right associativity).
Notation "m ;; k" := (bind m (fun _ => k))
  (at level 61, right associativity).

Definition print (s : string) : M unit :=
  fun w => (Ok tt, mkWorld (cout w ++ [s]) (glog w)).

Definition log (l : LogLine) : M unit :=
  fun w => (Ok tt, mkWorld (cout w) (glog w ++ [l])).

(** [RETURN_NOT_OK_PREPEND(call, ctx)] around a call of the collaborator. *)
Definition lift_prepend {A} (r : Result A) (ctx : string) : M A :=
  lift (CloneAndPrepend r ctx).

(** A range-based [for] whose body may return a failed status. *)
Fixpoint for_each {A} (body : A -> M unit) (l : list A) : M unit :=
  match l with
  | [] => ret tt
  | x :: rest => body x ;; for_each body rest
  end.

(** ** String helpers *)

(** Modelled from the spec: [HasPrefixString] and [HasSuffixString] are
    declared in [yb/gutil/strings/util.h], which is not part of the
    sources; a name "begins with" the prefix, "ends with" the suffix. *)
Definition HasPrefixString (s p : string) : bool := String.prefix p s.

Definition HasSuffixString (s suffix : string) : bool :=
  (String.length suffix <=? String.length s)%nat &&
  String.eqb
    (String.substring (String.length s - String.length suffix)
                      (String.length suffix) s)
    suffix.

(** Modelled from the spec: [StringReplace] is declared in
    [yb/gutil/strings/util.h]; it replaces the occurrences of [oldsub] in
    [s] by [newsub], left to right and without overlap, all of them when
    [replace_all] holds and the first one otherwise.  [skip] counts the
    characters of a matched occurrence still to be dropped. *)
Fixpoint StringReplace_from (skip : nat) (active : bool) (s oldsub newsub : string)
    (replace_all : bool) : string :=
  match s with
  | EmptyString => EmptyString
  | String c rest =>
      match skip with
      | S n => StringReplace_from n active rest oldsub newsub replace_all
      | O =>
          if active && negb (String.eqb oldsub "") && String.prefix oldsub s
          then newsub ++ StringReplace_from (String.length oldsub - 1) replace_all
                           rest oldsub newsub replace_all
          else String c (StringReplace_from 0 active rest oldsub newsub replace_all)
      end
  end.

Definition StringReplace (s oldsub newsub : string) (replace_all : bool) : string :=
  StringReplace_from 0 true s oldsub newsub replace_all.

Fixpoint string_of_spaces (n : nat) : string :=
  match n with
  | O => ""
  | S k => String " "%char (string_of_spaces k)
  end.

(** [Indent]: [string(indent, ' ')]. *)
Definition Indent (indent : nat) : string := string_of_spaces indent.

Definition IndentString (s : string) (indent : nat) : string :=
  Indent indent ++ StringReplace s endl (endl ++ Indent indent) true.

(** ** Collaborators *)

(** Modelled from the spec: [FsTool::DetailLevel] is declared in
    [yb/tools/fs_tool.h], which is not part of the sources.  The
    specification gives the ordered enumeration
    [ID_ONLY < HEADERS_ONLY < FULL]. *)
Inductive DetailLevel : Type :=
  | ID_ONLY
  | HEADERS_ONLY
  | FULL.

(** The enumerator's integer value, which [>=] compares. *)
Definition DetailLevel_value (d : DetailLevel) : Z :=
  match d with
  | ID_ONLY => 0
  | HEADERS_ONLY => 1
  | FULL => 2
  end.

Definition DetailLevel_geb (a b : DetailLevel) : bool :=
  (DetailLevel_value b <=? DetailLevel_value a)%Z.

(** A protobuf message, of which the tool only takes [DebugString()]. *)
Record LogSegmentHeaderPB : Type := {
  LogSegmentHeaderPB_DebugString : string
}.

Record TabletSuperBlockPB : Type := {
  TabletSuperBlockPB_DebugString : string
}.

(** An opened segment: what [file_size()] and [header()] return. *)
Record ReadableLogSegment : Type := {
  file_size : N;
  header : LogSegmentHeaderPB
}.

(** The environment, seen through [ReadableLogSegment::Open(env, path, _)]:
    the outcome of opening the file at each path. *)
Record Env : Type := {
  ReadableLogSegment_Open : string -> Result ReadableLogSegment
}.

(** Tablet metadata, by the accessors the tool calls on it.  [Tablet_Open]
    and [Tablet_DebugDump] are the outcomes of [Open()] and [DebugDump()]
    on the [Tablet] that [DumpTabletData] builds over the metadata. *)
Record TabletMetadata : Type := {
  wal_dir : string;
  table_name : string;
  table_id : string;
  schema_version : string;  (* the number, as [operator<<] prints it *)
  schema_ToString : string;
  PartitionDebugString : string;
  ToSuperBlock : Result TabletSuperBlockPB;
  Tablet_Open : Status;
  Tablet_DebugDump : Result (list string)
}.

(** The file-system manager, opened read-only, by the methods the tool
    calls.  [TabletMetadata_Load] is [TabletMetadata::Load(fs_manager, id,
    &meta)]. *)
Record FsManager : Type := {
  env : Env;
  uuid : string;
  DumpFileSystemTree : string;
  GetWalRootDirs : list string;
  Exists : string -> bool;
  ListDir : string -> Result (list string);
  GetTabletWalRecoveryDir : string -> string;
  ListTabletIds : Result (list string);
  TabletMetadata_Load : string -> Result TabletMetadata
}.

(** The tool after [Init]: [initialized_] holds, so every
    [DCHECK(initialized_)] passes. *)
Record FsTool : Type := {
  detail_level_ : DetailLevel;
  fs_manager_ : FsManager
}.

Definition with_detail_level (t : FsTool) (d : DetailLevel) : FsTool :=
  {| detail_level_ := d; fs_manager_ := fs_manager_ t |}.

(** The erase-remove idiom: the elements for which [p] fails, in order. *)
Definition remove_if {A} (p : A -> bool) (l : list A) : list A :=
  filter (fun x => negb (p x)) l.

(** The lambda of [ListAllLogSegments]. *)
Definition has_dot_prefix (s : string) : bool := HasPrefixString s ".".

(** Helpers and constants of other translation units, none of them part of
    the sources: [log::IsLogFileName] (the naming convention of log
    segments), [JoinPathSegments], [FsManager::kWalsRecoveryDirSuffix],
    [HumanReadableNumBytes::ToStringWithoutRounding] and
    [Status::ToString] (of a failed status, given its kind and message).
    The tool is parametrised by them. *)
Record Externals : Type := {
  IsLogFileName : string -> bool;
  JoinPathSegments : string -> string -> string;
  kWalsRecoveryDirSuffix : string;
  ToStringWithoutRounding : N -> string;
  Status_ToString : Code -> string -> string
}.

Definition ToString {A} (lib : Externals) (r : Result A) : string :=
  match r with
  | Ok _ => "OK"
  | Err c msg => Status_ToString lib c msg
  end.

(** ** The methods of FsTool *)

Section Tool.

Variable lib : Externals.
Variable t : FsTool.

Definition PrintLogSegmentHeader (path : string) (indent : nat) : M unit :=
  let s := ReadableLogSegment_Open (env (fs_manager_ t)) path in
  if IsUninitialized s then
    log (LOG_ERROR (path ++ " is not initialized: " ++ ToString lib s))
  else if IsCorruption s then
    log (LOG_ERROR (path ++ " is corrupt: " ++ ToString lib s))
  else
    segment <- lift_prepend s ("Unexpected error reading log segment " ++ path) ;;
    print (Indent indent ++ "Size: "
           ++ ToStringWithoutRounding lib (file_size segment) ++ endl) ;;
    print (Indent indent ++ "Header: " ++ endl) ;;
    print (IndentString (LogSegmentHeaderPB_DebugString (header segment)) indent).

(** The body of the loop of [ListSegmentsInDir]: first the test that
    skips a name ([continue]), then what is done for a name that passes. *)
Definition ListSegmentsInDir_entry (segments_dir segment : string) : M unit :=
  if DetailLevel_geb (detail_level_ t) HEADERS_ONLY then
    print ("Segment: " ++ segment ++ endl) ;;
    let path := JoinPathSegments lib segments_dir segment in
    PrintLogSegmentHeader path 2
  else
    print (tab ++ segment ++ endl).

Definition ListSegmentsInDir_segment (segments_dir segment : string) : M unit :=
  if negb (IsLogFileName lib segment) then ret tt
  else ListSegmentsInDir_entry segments_dir segment.

Definition ListSegmentsInDir (segments_dir : string) : M unit :=
  segments <- lift_prepend (ListDir (fs_manager_ t) segments_dir)
                           "Unable to list log segments" ;;
  print ("Segments in " ++ segments_dir ++ ":" ++ endl) ;;
  for_each (ListSegmentsInDir_segment segments_dir) segments.

(** The body of the inner loop of [ListAllLogSegments]. *)
Definition ListAllLogSegments_child (table_wal_dir child : string) : M unit :=
  if has_dot_prefix child then
    log (VLOG 1 ("Ignoring hidden file in root log directory " ++ child))
  else
    let path := JoinPathSegments lib table_wal_dir child in
    (if HasSuffixString child (kWalsRecoveryDirSuffix lib)
     then print ("Log recovery dir found: " ++ path ++ endl)
     else print ("Log directory: " ++ path ++ endl)) ;;
    ListSegmentsInDir path.

(** The body of the loop over the table directories. *)
Definition ListAllLogSegments_table (wals_dir table : string) : M unit :=
  let table_wal_dir := JoinPathSegments lib wals_dir table in
  children <- lift_prepend (ListDir (fs_manager_ t) table_wal_dir)
                           "Could not list log directories" ;;
  for_each (ListAllLogSegments_child table_wal_dir) children.

(** What [ListAllLogSegments] does with the listing of a root: it erases
    the dot-prefixed names and walks the others. *)
Definition ListAllLogSegments_tables (wals_dir : string) (tables : list string)
    : M unit :=
  for_each (ListAllLogSegments_table wals_dir) (remove_if has_dot_prefix tables).

(** The body of the loop over the WAL root directories. *)
Definition ListAllLogSegments_root (wals_dir : string) : M unit :=
  if negb (Exists (fs_manager_ t) wals_dir) then
    (* Substitute("root log directory '$0' does not exist", wals_dir) *)
    fail Corruption ("root log directory '" ++ wals_dir ++ "' does not exist")
  else
    print ("Root log directory: " ++ wals_dir ++ endl) ;;
    tables <- lift_prepend (ListDir (fs_manager_ t) wals_dir)
                           "Could not list table directories" ;;
    ListAllLogSegments_tables wals_dir tables.

Definition ListAllLogSegments : M unit :=
  for_each ListAllLogSegments_root (GetWalRootDirs (fs_manager_ t)).

Definition ListLogSegmentsForTablet (tablet_id : string) : M unit :=
  meta <- lift (TabletMetadata_Load (fs_manager_ t) tablet_id) ;;
  let tablet_wal_dir := wal_dir meta in
  if negb (Exists (fs_manager_ t) tablet_wal_dir) then
    (* Substitute("tablet '$0' has no logs in wals dir '$1'", ...) *)
    fail NotFound ("tablet '" ++ tablet_id ++ "' has no logs in wals dir '"
                   ++ tablet_wal_dir ++ "'")
  else
    print ("Tablet WAL dir found: " ++ tablet_wal_dir ++ endl) ;;
    ListSegmentsInDir tablet_wal_dir ;;
    let recovery_dir := GetTabletWalRecoveryDir (fs_manager_ t) tablet_wal_dir in
    if Exists (fs_manager_ t) recovery_dir then
      print ("Recovery dir found: " ++ recovery_dir ++ endl) ;;
      ListSegmentsInDir recovery_dir
    else ret tt.

Definition PrintTabletMeta (tablet_id : string) (indent : nat) : M unit :=
  meta <- lift (TabletMetadata_Load (fs_manager_ t) tablet_id) ;;
  print (Indent indent ++ "Partition: " ++ PartitionDebugString meta ++ endl) ;;
  print (Indent indent ++ "Table name: " ++ table_name meta
         ++ " Table id: " ++ table_id meta ++ endl) ;;
  print (Indent indent ++ "Schema (version=" ++ schema_version meta ++ "): "
         ++ schema_ToString meta ++ endl) ;;
  pb <- lift_prepend (ToSuperBlock meta) "Could not get superblock" ;;
  print ("Superblock:" ++ endl ++ TabletSuperBlockPB_DebugString pb ++ endl).

(** The body of the loop of [ListAllTablets]. *)
Definition ListAllTablets_tablet (tablet : string) : M unit :=
  if DetailLevel_geb (detail_level_ t) HEADERS_ONLY then
    print ("Tablet: " ++ tablet ++ endl) ;;
    PrintTabletMeta tablet 2
  else
    print (tab ++ tablet ++ endl).

Definition ListAllTablets : M unit :=
  tablets <- lift (ListTabletIds (fs_manager_ t)) ;;
  for_each ListAllTablets_tablet tablets.

Definition FsTree : M unit :=
  print (DumpFileSystemTree (fs_manager_ t)).

Definition DumpTabletData (tablet_id : string) : M unit :=
  meta <- lift (TabletMetadata_Load (fs_manager_ t) tablet_id) ;;
  lift_prepend (Tablet_Open meta) "Couldn't open tablet" ;;
  lines <- lift_prepend (Tablet_DebugDump meta) "Couldn't dump tablet" ;;
  for_each (fun line => print (line ++ endl)) lines.

Definition PrintUUID (indent : nat) : M unit :=
  print (Indent indent ++ uuid (fs_manager_ t) ++ endl).

End Tool.

(** ** Vocabulary of the statements *)

(** The world after the chunks [out] went to standard output and the lines
    [diag] to glog. *)
Definition emit (out : list string) (diag : list LogLine) (w : World) : World :=
  mkWorld (cout w ++ out) (glog w ++ diag).

(** [sub] occurs in [s]. *)
Definition occurs_in (sub s : string) : Prop :=
  exists pre post, s = pre ++ sub ++ post.

Fixpoint contains (s sub : string) : bool :=
  String.prefix sub s ||
  match s with
  | EmptyString => false
  | String _ rest => contains rest sub
  end.

(** The lines of a text: the pieces between newlines ([acc] is the line
    being read, reversed). *)
Fixpoint lines_from (acc : string) (s : string) : list string :=
  match s with
  | EmptyString => match acc with EmptyString => [] | _ => [acc] end
  | String c rest =>
      if Ascii.eqb c (ascii_of_nat 10) then acc :: lines_from "" rest
      else lines_from (acc ++ String c "") rest
  end.

Definition lines (s : string) : list string := lines_from "" s.

(** Every line of [a] is a line of [b]. *)
Definition line_superset (b a : list string) : bool :=
  forallb (fun l => existsb (String.eqb l) b) a.

(** What a successful [PrintLogSegmentHeader] writes for a segment. *)
Definition header_text (lib : Externals) (segment : ReadableLogSegment)
    (indent : nat) : list string :=
  [ Indent indent ++ "Size: "
      ++ ToStringWithoutRounding lib (file_size segment) ++ endl;
    Indent indent ++ "Header: " ++ endl;
    IndentString (LogSegmentHeaderPB_DebugString (header segment)) indent ].

(** What [PrintLogSegmentHeader] writes to standard output for a path,
    whatever the outcome of opening it. *)
Definition header_out (lib : Externals) (t : FsTool) (path : string)
    (indent : nat) : list string :=
  match ReadableLogSegment_Open (env (fs_manager_ t)) path with
  | Ok segment => header_text lib segment indent
  | Err _ _ => []
  end.

(** The entry of a segment in the listing of a directory, at [ID_ONLY]
    and at the levels from [HEADERS_ONLY] on. *)
Definition segment_id_entry (segment : string) : list string :=
  [ tab ++ segment ++ endl ].

Definition segment_full_entry (lib : Externals) (t : FsTool)
    (segments_dir segment : string) : list string :=
  ("Segment: " ++ segment ++ endl)
    :: header_out lib t (JoinPathSegments lib segments_dir segment) 2.

(** The status [PrintLogSegmentHeader] returns for a path, and the lines
    it hands to glog. *)
Definition header_status (t : FsTool) (path : string) : Status :=
  match ReadableLogSegment_Open (env (fs_manager_ t)) path with
  | Ok _ => OK
  | Err Uninitialized _ => OK
  | Err Corruption _ => OK
  | Err c msg =>
      Err c ("Unexpected error reading log segment " ++ path ++ ": " ++ msg)
  end.

Definition header_diag (lib : Externals) (t : FsTool) (path : string)
    : list LogLine :=
  let s := ReadableLogSegment_Open (env (fs_manager_ t)) path in
  match s with
  | Err Uninitialized _ =>
      [LOG_ERROR (path ++ " is not initialized: " ++ ToString lib s)]
  | Err Corruption _ =>
      [LOG_ERROR (path ++ " is corrupt: " ++ ToString lib s)]
  | _ => []
  end.

Definition segment_status (lib : Externals) (t : FsTool)
    (segments_dir segment : string) : Status :=
  header_status t (JoinPathSegments lib segments_dir segment).

(** What [PrintTabletMeta] writes for a tablet id, and the status it
    returns. *)
Definition meta_out (t : FsTool) (tablet_id : string) (indent : nat)
    : list string :=
  match TabletMetadata_Load (fs_manager_ t) tablet_id with
  | Err _ _ => []
  | Ok meta =>
      [ Indent indent ++ "Partition: " ++ PartitionDebugString meta ++ endl;
        Indent indent ++ "Table name: " ++ table_name meta
          ++ " Table id: " ++ table_id meta ++ endl;
        Indent indent ++ "Schema (version=" ++ schema_version meta ++ "): "
          ++ schema_ToString meta ++ endl ]
      ++ match ToSuperBlock meta with
         | Ok pb => [ "Superblock:" ++ endl
                        ++ TabletSuperBlockPB_DebugString pb ++ endl ]
         | Err _ _ => []
         end
  end.

Definition meta_status (t : FsTool) (tablet_id : string) : Status :=
  match TabletMetadata_Load (fs_manager_ t) tablet_id with
  | Err c msg => Err c msg
  | Ok meta =>
      match ToSuperBlock meta with
      | Ok _ => OK
      | Err c msg => Err c ("Could not get superblock: " ++ msg)
      end
  end.

(** The entry of a tablet in the listing of all tablets, at [ID_ONLY] and
    at the levels from [HEADERS_ONLY] on. *)
Definition tablet_id_entry (tablet : string) : list string :=
  [ tab ++ tablet ++ endl ].

Definition tablet_full_entry (t : FsTool) (tablet : string) : list string :=
  ("Tablet: " ++ tablet ++ endl) :: meta_out t tablet 2.

(** A loop over [l] whose body returns [st x] on [x] ends with the first
    failed status, after [processed st l] elements: those before the
    failing one and the failing one itself. *)
Fixpoint outcome {A} (st : A -> Status) (l : list A) : Status :=
  match l with
  | [] => OK
  | x :: rest =>
      match st x with
      | Ok _ => outcome st rest
      | Err c msg => Err c msg
      end
  end.

Fixpoint processed {A} (st : A -> Status) (l : list A) : nat :=
  match l with
  | [] => 0
  | x :: rest => if ok (st x) then S (processed st rest) else 1
  end.

(** A computation that only writes: its result and what it appends to the
    two streams do not depend on the world it starts from. *)
Definition writes_only {A} (m : M A) : Prop :=
  exists r out diag, forall w, m w = (r, emit out diag w).

(** The two kinds of directory under a table's WAL directory, and the label
    printed for each. *)
Inductive DirKind : Type :=
  | RecoveryDir
  | LogDir.

Definition DirKind_label (k : DirKind) : string :=
  match k with
  | RecoveryDir => "Log recovery dir found: "
  | LogDir => "Log directory: "
  end.

(** Modelled from the spec: [TabletMetadata::Load] is not part of the
    sources.  For a tablet that does not exist it "fails with NotFound"
    (section 4.4), the tablet id being "present in the error message"
    (section 8). *)
Definition Load_reports_missing (fs : FsManager) (tablet_id : string) : Prop :=
  exists msg,
    TabletMetadata_Load fs tablet_id = Err NotFound msg /\
    occurs_in tablet_id msg.

(** ** A sample installation *)

Module Sample.

Definition lib : Externals := {|
  IsLogFileName := fun s => String.prefix "wal-" s;
  JoinPathSegments := fun a b => a ++ "/" ++ b;
  kWalsRecoveryDirSuffix := ".recovery";
  ToStringWithoutRounding := fun n => if N.eqb n 1024 then "1K" else "0B";
  Status_ToString := fun c msg =>
    match c with
    | NotFound => "Not found"
    | Corruption => "Corruption"
    | Uninitialized => "Uninitialized"
    | IOError => "IO error"
    end ++ ": " ++ msg
|}.

Definition segment1 : ReadableLogSegment := {|
  file_size := 1024;
  header := {| LogSegmentHeaderPB_DebugString :=
                 "major_version: 1" ++ endl ++ "minor_version: 0" ++ endl |}
|}.

Definition the_env : Env := {|
  ReadableLogSegment_Open := fun path =>
    if String.eqb path "/wals/T1/TAB1/wal-000000001" then Ok segment1
    else if String.eqb path "/wals/T1/TAB1/wal-000000002"
      then Err Uninitialized "log segment header not yet written"
    else if String.eqb path "/wals/T1/TAB1.recovery/wal-000000001"
      then Err Corruption "invalid magic number"
    else if String.eqb path "/wals/T1/TAB2/wal-000000001"
      then Err IOError "Permission denied"
    else if String.eqb path "/wals/T1/TAB2/wal-000000002" then Ok segment1
    else Err NotFound "No such file or directory"
|}.

Definition meta1 (dir : string) : TabletMetadata := {|
  wal_dir := dir;
  table_name := "orders";
  table_id := "T1";
  schema_version := "3";
  schema_ToString := "Schema [k INT32 NOT NULL]";
  PartitionDebugString := "hash buckets: (0)";
  ToSuperBlock := Ok {| TabletSuperBlockPB_DebugString := "tablet_id: TAB" |};
  Tablet_Open := OK;
  Tablet_DebugDump := Ok ["Dumping tablet:"; "MRS memrowset:"]
|}.

Definition fs (roots : list string) : FsManager := {|
  env := the_env;
  uuid := "4f0cf2e6a1b54b0f";
  DumpFileSystemTree := "File-System Root: /" ++ endl;
  GetWalRootDirs := roots;
  Exists := fun p =>
    existsb (String.eqb p)
      ["/wals"; "/wals/T1"; "/wals/T1/TAB1"; "/wals/T1/TAB1.recovery";
       "/wals/T1/TAB2"; "/wals/T1/TAB2.recovery"; "/wals/T1/TAB3"];
  ListDir := fun p =>
    if String.eqb p "/wals" then Ok [".tmp"; "T1"]
    else if String.eqb p "/wals/T1" then Ok [".hidden"; "TAB1"; "TAB1.recovery"]
    else if String.eqb p "/wals/T1/TAB1"
      then Ok ["wal-000000001"; "stray.txt"; "wal-000000002"]
    else if String.eqb p "/wals/T1/TAB1.recovery" then Ok ["wal-000000001"]
    else if String.eqb p "/wals/T1/TAB2"
      then Ok ["wal-000000001"; "notes.txt"; "wal-000000002"]
    else if String.eqb p "/wals/T1/TAB2.recovery" then Ok ["wal-000000007"]
    else if String.eqb p "/wals/T1/TAB3" then Err IOError "Permission denied"
    else Err NotFound "No such file or directory";
  GetTabletWalRecoveryDir := fun p => p ++ ".recovery";
  ListTabletIds := Ok ["TAB1"; "TAB2"];
  TabletMetadata_Load := fun id =>
    if String.eqb id "TAB1" then Ok (meta1 "/wals/T1/TAB1")
    else if String.eqb id "TAB2" then Ok (meta1 "/wals/T1/TAB2")
    else if String.eqb id "TAB3" then Ok (meta1 "/wals/T1/TAB3")
    else if String.eqb id "TAB4" then Ok (meta1 "/wals/T1/TAB4")
    else Err NotFound ("Could not load tablet metadata from /meta/" ++ id
                       ++ ": No such file or directory")
|}.

Definition tool (d : DetailLevel) (roots : list string) : FsTool :=
  {| detail_level_ := d; fs_manager_ := fs roots |}.

Definition w0 : World := mkWorld [] [].

End Sample.

(** ** Vocabulary of the further properties *)

(** The number of newline characters of a text. *)
Fixpoint count_newlines (s : string) : nat :=
  match s with
  | EmptyString => 0
  | String c rest =>
      (if Ascii.eqb c (ascii_of_nat 10) then 1 else 0) + count_newlines rest
  end.

(** The text made of the given lines, each ended by a newline. *)
Definition unlines (ls : list string) : string :=
  fold_right (fun l rest => l ++ endl ++ rest) "" ls.

(** The same tool over another environment: every method of the file
    system manager answers as before, the segments are opened through
    [e]. *)
Definition with_env (t : FsTool) (e : Env) : FsTool :=
  {| detail_level_ := detail_level_ t;
     fs_manager_ :=
       {| env := e;
          uuid := uuid (fs_manager_ t);
          DumpFileSystemTree := DumpFileSystemTree (fs_manager_ t);
          GetWalRootDirs := GetWalRootDirs (fs_manager_ t);
          Exists := Exists (fs_manager_ t);
          ListDir := ListDir (fs_manager_ t);
          GetTabletWalRecoveryDir := GetTabletWalRecoveryDir (fs_manager_ t);
          ListTabletIds := ListTabletIds (fs_manager_ t);
          TabletMetadata_Load := TabletMetadata_Load (fs_manager_ t) |} |}.

(** ** A damaged installation *)

Module Damaged.

(** An environment in which no segment can be opened. *)
Definition sealed_env : Env := {|
  ReadableLogSegment_Open := fun _ => Err IOError "Input/output error"
|}.

Definition meta (dir : string) (superblock : Result TabletSuperBlockPB)
    (open : Status) (dump : Result (list string)) : TabletMetadata := {|
  wal_dir := dir;
  table_name := "orders";
  table_id := "T1";
  schema_version := "3";
  schema_ToString := "Schema [k INT32 NOT NULL]";
  PartitionDebugString := "hash buckets: (0)";
  ToSuperBlock := superblock;
  Tablet_Open := open;
  Tablet_DebugDump := dump
|}.

Definition superblock : TabletSuperBlockPB :=
  {| TabletSuperBlockPB_DebugString := "tablet_id: TAB" |}.

Definition fs : FsManager := {|
  env := Sample.the_env;
  uuid := "4f0cf2e6a1b54b0f";
  DumpFileSystemTree := "File-System Root: /" ++ endl;
  GetWalRootDirs := ["/wals"];
  Exists := fun p =>
    existsb (String.eqb p)
      ["/wals"; "/wals2"; "/locked"; "/empty"; "/wals/T1"; "/wals/T2";
       "/wals/T1/TAB1"];
  ListDir := fun p =>
    if String.eqb p "/wals" then Ok ["T1"; "T2"]
    else if String.eqb p "/wals/T1" then Ok ["TAB1"; "stray.txt"; "TAB9"]
    else if String.eqb p "/wals/T1/TAB1"
      then Ok ["wal-000000001"; "wal-000000002"]
    else if String.eqb p "/wals/T1/stray.txt" then Err IOError "Not a directory"
    else if String.eqb p "/wals/T2" then Err IOError "Permission denied"
    else if String.eqb p "/wals2" then Ok [".snapshot"; "T2"; "T1"]
    else if String.eqb p "/wals2/T2" then Err IOError "Permission denied"
    else if String.eqb p "/wals/T3" then Ok [".tmp"; ".old"]
    else if String.eqb p "/wals/T1/TAB5" then Ok ["README"; "core.1234"]
    else if String.eqb p "/locked" then Err IOError "Permission denied"
    else if String.eqb p "/empty" then Ok [".lost+found"]
    else Err NotFound "No such file or directory";
  GetTabletWalRecoveryDir := fun p => p ++ ".recovery";
  ListTabletIds := Ok ["TAB1"; "TAB7"; "TAB2"];
  TabletMetadata_Load := fun id =>
    if String.eqb id "TAB1"
      then Ok (meta "/wals/T1/TAB1" (Ok superblock) OK (Ok ["Dumping tablet:"]))
    else if String.eqb id "TAB2"
      then Ok (meta "/wals/T1/TAB2" (Ok superblock)
                 (Err Corruption "bad rowset") (Ok []))
    else if String.eqb id "TAB7"
      then Ok (meta "/wals/T1/TAB7" (Err Corruption "missing schema") OK
                 (Err IOError "Input/output error"))
    else Err NotFound ("Could not load tablet metadata from /meta/" ++ id
                       ++ ": No such file or directory")
|}.

Definition tool (d : DetailLevel) : FsTool :=
  {| detail_level_ := d; fs_manager_ := fs |}.

End Damaged.

(** ** An installation in which every directory lists *)

Module Healthy.

Definition the_env : Env := {|
  ReadableLogSegment_Open := fun path =>
    if String.eqb path "/wals/T1/TAB1/wal-000000001" then Ok Sample.segment1
    else if String.eqb path "/wals/T1/TAB1/wal-000000002"
      then Err Corruption "invalid magic number"
    else Err Uninitialized "log segment header not yet written"
|}.

Definition fs : FsManager := {|
  env := the_env;
  uuid := "4f0cf2e6a1b54b0f";
  DumpFileSystemTree := "File-System Root: /" ++ endl;
  GetWalRootDirs := ["/wals"];
  Exists := fun p => String.eqb p "/wals";
  ListDir := fun p =>
    if String.eqb p "/wals" then Ok ["T1"]
    else if String.eqb p "/wals/T1" then Ok ["TAB1"; ".tmp"]
    else if String.eqb p "/wals/T1/TAB1"
      then Ok ["wal-000000001"; "wal-000000002"; "wal-000000003"]
    else Ok [];
  GetTabletWalRecoveryDir := fun p => p ++ ".recovery";
  ListTabletIds := Ok ["TAB1"];
  TabletMetadata_Load := fun id => Ok (Sample.meta1 "/wals/T1/TAB1")
|}.

Definition tool (d : DetailLevel) : FsTool :=
  {| detail_level_ := d; fs_manager_ := fs |}.

End Healthy.

(** ** Reference notions *)

(** The text [s] with [indent] spaces written after each of its newlines:
    every character of [s] is kept, in order. *)
Fixpoint indented (indent : nat) (s : string) : string :=
  match s with
  | EmptyString => EmptyString
  | String c rest =>
      if Ascii.eqb c (ascii_of_nat 10)
      then String c (string_of_spaces indent ++ indented indent rest)
      else String c (indented indent rest)
  end.

(** The same tool over a file system whose listings have lost every name
    that begins with a dot; a listing that fails still fails the same
    way. *)
Definition hide_dot_entries (t : FsTool) : FsTool :=
  {| detail_level_ := detail_level_ t;
     fs_manager_ :=
       {| env := env (fs_manager_ t);
          uuid := uuid (fs_manager_ t);
          DumpFileSystemTree := DumpFileSystemTree (fs_manager_ t);
          GetWalRootDirs := GetWalRootDirs (fs_manager_ t);
          Exists := Exists (fs_manager_ t);
          ListDir := fun p =>
            match ListDir (fs_manager_ t) p with
            | Ok names => Ok (remove_if has_dot_prefix names)
            | Err c msg => Err c msg
            end;
          GetTabletWalRecoveryDir := GetTabletWalRecoveryDir (fs_manager_ t);
          ListTabletIds := ListTabletIds (fs_manager_ t);
          TabletMetadata_Load := TabletMetadata_Load (fs_manager_ t) |} |}.

(** Two computations that, from worlds with the same standard output,
    return the same status and leave the same standard output. *)
Definition same_status_and_cout {A} (m1 m2 : M A) : Prop :=
  forall w1 w2,
    cout w1 = cout w2 ->
    fst (m1 w1) = fst (m2 w2) /\ cout (snd (m1 w1)) = cout (snd (m2 w2)).

(** An outcome of opening a segment that does not end a listing. *)
Definition tolerated {A} (r : Result A) : bool :=
  ok r || IsUninitialized r || IsCorruption r.

(** What the walk of all the WAL roots needs in order to return OK, level
    by level: the directory of segments lists and, from [HEADERS_ONLY] on,
    each of its log files opens or fails as Uninitialized or Corruption;
    the entry of a table directory is hidden or is such a directory; the
    table directory lists and its entries are fine; the root exists and
    lists and its tables, hidden ones apart, are fine. *)
Definition segments_dir_fine (lib : Externals) (t : FsTool) (dir : string)
    : bool :=
  match ListDir (fs_manager_ t) dir with
  | Err _ _ => false
  | Ok segments =>
      negb (DetailLevel_geb (detail_level_ t) HEADERS_ONLY)
      || forallb
           (fun s =>
              tolerated (ReadableLogSegment_Open (env (fs_manager_ t))
                           (JoinPathSegments lib dir s)))
           (filter (IsLogFileName lib) segments)
  end.

Definition child_fine (lib : Externals) (t : FsTool)
    (table_wal_dir child : string) : bool :=
  has_dot_prefix child
  || segments_dir_fine lib t (JoinPathSegments lib table_wal_dir child).

Definition table_fine (lib : Externals) (t : FsTool)
    (wals_dir table : string) : bool :=
  match ListDir (fs_manager_ t) (JoinPathSegments lib wals_dir table) with
  | Err _ _ => false
  | Ok children =>
      forallb (child_fine lib t (JoinPathSegments lib wals_dir table)) children
  end.

Definition root_fine (lib : Externals) (t : FsTool) (wals_dir : string)
    : bool :=
  Exists (fs_manager_ t) wals_dir
  && match ListDir (fs_manager_ t) wals_dir with
     | Err _ _ => false
     | Ok tables =>
         forallb (table_fine lib t wals_dir) (remove_if has_dot_prefix tables)
     end.

Definition walk_fine (lib : Externals) (t : FsTool) : bool :=
  forallb (root_fine lib t) (GetWalRootDirs (fs_manager_ t)).

(** ** An installation with an unreadable segment *)

Module Interrupted.

Definition fs : FsManager := {|
  env := Sample.the_env;
  uuid := "4f0cf2e6a1b54b0f";
  DumpFileSystemTree := "File-System Root: /" ++ endl;
  GetWalRootDirs := ["/wals"];
  Exists := fun p => String.eqb p "/wals";
  ListDir := fun p =>
    if String.eqb p "/wals" then Ok ["T1"]
    else if String.eqb p "/wals/T1" then Ok ["TAB2"; "TAB2.recovery"]
    else if String.eqb p "/wals/T1/TAB2"
      then Ok ["wal-000000001"; "wal-000000002"]
    else if String.eqb p "/wals/T1/TAB2.recovery" then Ok ["wal-000000007"]
    else Err NotFound "No such file or directory";
  GetTabletWalRecoveryDir := fun p => p ++ ".recovery";
  ListTabletIds := Ok ["TAB2"];
  TabletMetadata_Load := fun id => Ok (Sample.meta1 "/wals/T1/TAB2")
|}.

Definition tool (d : DetailLevel) : FsTool :=
  {| detail_level_ := d; fs_manager_ := fs |}.

End Interrupted.

(** ** The monad and its loops *)

Lemma emit_nil (w : World) : emit [] [] w = w.
Proof. destruct w; unfold emit; simpl; now rewrite !app_nil_r. Qed.

Lemma emit_emit (o1 o2 : list string) (g1 g2 : list LogLine) (w : World) :
  emit o2 g2 (emit o1 g1 w) = emit (o1 ++ o2) (g1 ++ g2) w.
Proof. unfold emit; simpl; now rewrite !app_assoc. Qed.

Lemma print_emit (s : string) (w : World) : print s w = (OK, emit [s] [] w).
Proof. unfold print, emit; now rewrite app_nil_r. Qed.

Lemma log_emit (l : LogLine) (w : World) : log l w = (OK, emit [] [l] w).
Proof. unfold log, emit; now rewrite app_nil_r. Qed.

Lemma bind_Ok {A B} (m : M A) (k : A -> M B) (w w' : World) (a : A) :
  m w = (Ok a, w') -> bind m k w = k a w'.
Proof. unfold bind; now intros ->. Qed.

Lemma bind_Err {A B} (m : M A) (k : A -> M B) (w w' : World) c msg :
  m w = (Err c msg, w') -> bind m k w = (Err c msg, w').
Proof. unfold bind; now intros ->. Qed.

Lemma for_each_ext {A} (f g : A -> M unit) (l : list A) :
  (forall x w, In x l -> f x w = g x w) ->
  forall w, for_each f l w = for_each g l w.
Proof.
  induction l as [|x rest IH]; intros Hfg w; simpl; [reflexivity|].
  unfold bind; rewrite Hfg by now left.
  destruct (g x w) as [[[]|c msg] w']; [|reflexivity].
  apply IH; intros y w0 Hy; apply Hfg; now right.
Qed.

(** Elements on which the body does nothing can be dropped from a loop. *)
Lemma for_each_filter {A} (body : A -> M unit) (keep : A -> bool) (l : list A) :
  (forall x w, keep x = false -> body x w = (OK, w)) ->
  forall w, for_each body l w = for_each body (filter keep l) w.
Proof.
  intros Hskip; induction l as [|x rest IH]; intros w; simpl; [reflexivity|].
  destruct (keep x) eqn:Hk; simpl.
  - unfold bind; destruct (body x w) as [[[]|c msg] w']; [apply IH | reflexivity].
  - rewrite (bind_Ok _ _ w w tt) by now apply Hskip.
    apply IH.
Qed.

Lemma outcome_OK_processed {A} (st : A -> Status) (l : list A) :
  outcome st l = OK -> processed st l = length l.
Proof.
  induction l as [|x rest IH]; simpl; [reflexivity|].
  destruct (st x) as [[]|c msg]; simpl; [|discriminate].
  now intros H; rewrite IH.
Qed.

Lemma processed_le {A} (st : A -> Status) (l : list A) :
  processed st l <= length l.
Proof.
  induction l as [|x rest IH]; simpl; [lia|].
  destruct (ok (st x)); lia.
Qed.

(** A loop whose body only writes: it writes the entries of the elements
    it processes and returns the outcome of their statuses. *)
Lemma for_each_writes {A} (body : A -> M unit) (st : A -> Status)
    (out : A -> list string) (diag : A -> list LogLine) (l : list A) :
  (forall x w, body x w = (st x, emit (out x) (diag x) w)) ->
  forall w,
    for_each body l w =
    (outcome st l,
     emit (flat_map out (firstn (processed st l) l))
          (flat_map diag (firstn (processed st l) l)) w).
Proof.
  intros Hbody; induction l as [|x rest IH]; intros w; simpl.
  - now rewrite emit_nil.
  - unfold bind; rewrite Hbody.
    destruct (st x) as [[]|c msg]; simpl.
    + now rewrite IH, emit_emit.
    + now rewrite !app_nil_r.
Qed.

(** Normalises the two streams of a world built by successive writes. *)
Ltac streams :=
  unfold emit, print, log; simpl;
  repeat rewrite <- app_assoc; simpl; repeat rewrite app_nil_r;
  reflexivity.

(** ** The log segment header reader *)

Section HeaderReader.

Variable lib : Externals.
Variable t : FsTool.

Lemma PrintLogSegmentHeader_Ok path indent segment w :
  ReadableLogSegment_Open (env (fs_manager_ t)) path = Ok segment ->
  PrintLogSegmentHeader lib t path indent w
  = (OK, emit (header_text lib segment indent) [] w).
Proof.
  intros Hopen; unfold PrintLogSegmentHeader; rewrite Hopen; simpl.
  unfold bind, lift_prepend, lift, header_text, OK; simpl.
  f_equal; streams.
Qed.

(** [PrintLogSegmentHeader] only writes: its status and what it writes are
    functions of the outcome of opening the path. *)
Lemma PrintLogSegmentHeader_writes path indent w :
  PrintLogSegmentHeader lib t path indent w
  = (header_status t path,
     emit (header_out lib t path indent) (header_diag lib t path) w).
Proof.
  unfold header_status, header_out, header_diag.
  destruct (ReadableLogSegment_Open (env (fs_manager_ t)) path)
    as [segment|c msg] eqn:Hopen.
  - now rewrite (PrintLogSegmentHeader_Ok _ _ segment).
  - unfold PrintLogSegmentHeader; rewrite Hopen.
    destruct c; simpl; rewrite ?log_emit; try reflexivity;
      unfold bind, lift_prepend, lift; simpl; now rewrite emit_nil.
Qed.

End HeaderReader.

(** ** The segment catalog *)

Section SegmentCatalog.

Variable lib : Externals.
Variable t : FsTool.
Variable segments_dir : string.

Lemma ListSegmentsInDir_segment_skip segment w :
  IsLogFileName lib segment = false ->
  ListSegmentsInDir_segment lib t segments_dir segment w = (OK, w).
Proof. unfold ListSegmentsInDir_segment; now intros ->. Qed.

Lemma ListSegmentsInDir_segment_keep segment w :
  IsLogFileName lib segment = true ->
  ListSegmentsInDir_segment lib t segments_dir segment w
  = ListSegmentsInDir_entry lib t segments_dir segment w.
Proof. unfold ListSegmentsInDir_segment; now intros ->. Qed.

(** The loop over a listing is the loop over its recognized names. *)
Lemma ListSegmentsInDir_loop_filter segments w :
  for_each (ListSegmentsInDir_segment lib t segments_dir) segments w
  = for_each (ListSegmentsInDir_entry lib t segments_dir)
             (filter (IsLogFileName lib) segments) w.
Proof.
  rewrite (for_each_filter _ (IsLogFileName lib))
    by (intros x w0; apply ListSegmentsInDir_segment_skip).
  apply for_each_ext; intros x w0 Hx.
  apply ListSegmentsInDir_segment_keep.
  now apply filter_In in Hx.
Qed.

Lemma ListSegmentsInDir_entry_id segment w :
  DetailLevel_geb (detail_level_ t) HEADERS_ONLY = false ->
  ListSegmentsInDir_entry lib t segments_dir segment w
  = (OK, emit (segment_id_entry segment) [] w).
Proof.
  unfold ListSegmentsInDir_entry; intros ->; now rewrite print_emit.
Qed.

Lemma ListSegmentsInDir_entry_full segment w :
  DetailLevel_geb (detail_level_ t) HEADERS_ONLY = true ->
  ListSegmentsInDir_entry lib t segments_dir segment w
  = (segment_status lib t segments_dir segment,
     emit (segment_full_entry lib t segments_dir segment)
          (header_diag lib t (JoinPathSegments lib segments_dir segment)) w).
Proof.
  unfold ListSegmentsInDir_entry; intros ->.
  unfold bind; rewrite print_emit, PrintLogSegmentHeader_writes, emit_emit.
  reflexivity.
Qed.

Lemma outcome_const_OK {A} (l : list A) :
  outcome (fun _ => OK) l = OK /\ processed (fun _ : A => OK) l = length l.
Proof. induction l as [|x rest [IH1 IH2]]; simpl; auto. Qed.

Lemma flat_map_nil {A B} (l : list A) : flat_map (fun _ => @nil B) l = [].
Proof. induction l; simpl; auto. Qed.

(** The run of [ListSegmentsInDir] on a directory that lists, at
    [ID_ONLY]. *)
Lemma ListSegmentsInDir_id segments w :
  ListDir (fs_manager_ t) segments_dir = Ok segments ->
  DetailLevel_geb (detail_level_ t) HEADERS_ONLY = false ->
  ListSegmentsInDir lib t segments_dir w
  = (OK, emit (("Segments in " ++ segments_dir ++ ":" ++ endl)
                 :: flat_map segment_id_entry
                      (filter (IsLogFileName lib) segments)) [] w).
Proof.
  intros Hls Hlevel; unfold ListSegmentsInDir; rewrite Hls.
  unfold lift_prepend, lift, bind at 1; simpl.
  unfold bind; rewrite print_emit, ListSegmentsInDir_loop_filter.
  rewrite (for_each_writes _ (fun _ => OK) segment_id_entry (fun _ => []) _
             (fun x w0 => ListSegmentsInDir_entry_id x w0 Hlevel)).
  destruct (outcome_const_OK (A := string) (filter (IsLogFileName lib) segments))
    as [-> ->].
  now rewrite firstn_all, flat_map_nil, emit_emit.
Qed.

(** The same at [HEADERS_ONLY] and above. *)
Lemma ListSegmentsInDir_full segments w :
  ListDir (fs_manager_ t) segments_dir = Ok segments ->
  DetailLevel_geb (detail_level_ t) HEADERS_ONLY = true ->
  let names := filter (IsLogFileName lib) segments in
  let st := segment_status lib t segments_dir in
  ListSegmentsInDir lib t segments_dir w
  = (outcome st names,
     emit (("Segments in " ++ segments_dir ++ ":" ++ endl)
             :: flat_map (segment_full_entry lib t segments_dir)
                  (firstn (processed st names) names))
          (flat_map (fun s => header_diag lib t (JoinPathSegments lib segments_dir s))
             (firstn (processed st names) names)) w).
Proof.
  intros Hls Hlevel names st; unfold ListSegmentsInDir; rewrite Hls.
  unfold lift_prepend, lift, bind at 1; simpl.
  unfold bind; rewrite print_emit, ListSegmentsInDir_loop_filter.
  rewrite (for_each_writes _ _ _ _ _
             (fun x w0 => ListSegmentsInDir_entry_full x w0 Hlevel)).
  now rewrite emit_emit.
Qed.

Lemma ListSegmentsInDir_unlistable c msg w :
  ListDir (fs_manager_ t) segments_dir = Err c msg ->
  ListSegmentsInDir lib t segments_dir w
  = (Err c ("Unable to list log segments: " ++ msg), w).
Proof. intros Hls; unfold ListSegmentsInDir; now rewrite Hls. Qed.

End SegmentCatalog.

Lemma DetailLevel_geb_HEADERS_ONLY_false d :
  d = ID_ONLY -> DetailLevel_geb d HEADERS_ONLY = false.
Proof. now intros ->. Qed.

Lemma DetailLevel_geb_HEADERS_ONLY_true d :
  d <> ID_ONLY -> DetailLevel_geb d HEADERS_ONLY = true.
Proof. destruct d; [congruence | reflexivity | reflexivity]. Qed.

(** C3 (amended).  On a directory that lists, [ListSegmentsInDir] skips
    every name that is not a log file name, with no output and no error,
    and lists the recognized names in the order of the listing: all of
    them at [ID_ONLY] and whenever it returns OK; at [HEADERS_ONLY] and
    above, those up to and including the first one whose header cannot be
    read for a reason other than Uninitialized or Corruption. *)
Theorem ListSegmentsInDir_lists_recognized lib t dir segments w :
  ListDir (fs_manager_ t) dir = Ok segments ->
  let names := filter (IsLogFileName lib) segments in
  let heading := "Segments in " ++ dir ++ ":" ++ endl in
  let st := segment_status lib t dir in
  let run := ListSegmentsInDir lib t dir w in
  (forall seg w', IsLogFileName lib seg = false ->
     ListSegmentsInDir_segment lib t dir seg w' = (OK, w'))
  /\ (detail_level_ t = ID_ONLY ->
      run = (OK, emit (heading :: flat_map segment_id_entry names) [] w))
  /\ (detail_level_ t <> ID_ONLY ->
      fst run = outcome st names /\
      cout (snd run)
      = (cout w ++ heading :: flat_map (segment_full_entry lib t dir)
                               (firstn (processed st names) names))%list)
  /\ (detail_level_ t <> ID_ONLY -> fst run = OK ->
      cout (snd run)
      = (cout w ++ heading :: flat_map (segment_full_entry lib t dir) names)%list).
Proof.
  intros Hls names heading st run.
  split; [intros seg w'; apply ListSegmentsInDir_segment_skip|].
  split.
  { intros Hid; apply ListSegmentsInDir_id; [exact Hls|].
    now apply DetailLevel_geb_HEADERS_ONLY_false. }
  assert (Hfull : detail_level_ t <> ID_ONLY ->
            fst run = outcome st names /\
            cout (snd run)
            = (cout w ++ heading :: flat_map (segment_full_entry lib t dir)
                                     (firstn (processed st names) names))%list).
  { intros Hlevel; subst run.
    rewrite (ListSegmentsInDir_full lib t dir segments w Hls
               (DetailLevel_geb_HEADERS_ONLY_true _ Hlevel)).
    split; reflexivity. }
  split; [exact Hfull|].
  intros Hlevel Hok; destruct (Hfull Hlevel) as [Hst Hout].
  rewrite Hout, outcome_OK_processed, firstn_all by congruence.
  reflexivity.
Qed.

Lemma ListSegmentsInDir_lists_recognized_witness :
  let t := Sample.tool HEADERS_ONLY ["/wals"] in
  ListDir (fs_manager_ t) "/wals/T1/TAB1"
  = Ok ["wal-000000001"; "stray.txt"; "wal-000000002"]
  /\ cout (snd (ListSegmentsInDir Sample.lib t "/wals/T1/TAB1" Sample.w0))
     = [ "Segments in /wals/T1/TAB1:" ++ endl;
         "Segment: wal-000000001" ++ endl;
         "  Size: 1K" ++ endl;
         "  Header: " ++ endl;
         "  major_version: 1" ++ endl ++ "  minor_version: 0" ++ endl ++ "  ";
         "Segment: wal-000000002" ++ endl ].
Proof.
  intros t; split; [reflexivity|].
  destruct (ListSegmentsInDir_lists_recognized Sample.lib t "/wals/T1/TAB1"
              ["wal-000000001"; "stray.txt"; "wal-000000002"] Sample.w0 eq_refl)
    as (_ & _ & _ & Hall).
  refine (Hall _ eq_refl); discriminate.
Defined.

(** C3 as stated fails: at [HEADERS_ONLY], a first segment that cannot be
    opened (permission denied) ends the listing, and the second recognized
    name of the directory is never written. *)
Lemma ListSegmentsInDir_fatal_header_stops_listing :
  let t := Sample.tool HEADERS_ONLY ["/wals"] in
  let run := ListSegmentsInDir Sample.lib t "/wals/T1/TAB2" Sample.w0 in
  ListDir (fs_manager_ t) "/wals/T1/TAB2"
  = Ok ["wal-000000001"; "notes.txt"; "wal-000000002"]
  /\ filter (IsLogFileName Sample.lib)
       ["wal-000000001"; "notes.txt"; "wal-000000002"]
     = ["wal-000000001"; "wal-000000002"]
  /\ run = (Err IOError ("Unexpected error reading log segment "
                         ++ "/wals/T1/TAB2/wal-000000001: Permission denied"),
            mkWorld [ "Segments in /wals/T1/TAB2:" ++ endl;
                      "Segment: wal-000000001" ++ endl ] [])
  /\ existsb (fun chunk => contains chunk "wal-000000002") (cout (snd run))
     = false.
Proof. repeat split. Qed.

(** ** Computations that only write *)

Lemma for_each_app {A} (body : A -> M unit) (l1 l2 : list A) (w : World) :
  for_each body (l1 ++ l2) w = (for_each body l1 ;; for_each body l2) w.
Proof.
  revert w; induction l1 as [|x rest IH]; intros w; simpl; [reflexivity|].
  unfold bind in *; destruct (body x w) as [[[]|c msg] w']; [apply IH | reflexivity].
Qed.

Create HintDb writes.

Lemma writes_only_ret {A} (a : A) : writes_only (ret a).
Proof. exists (Ok a), [], []; intros w; unfold ret; now rewrite emit_nil. Qed.

Lemma writes_only_lift {A} (r : Result A) : writes_only (lift r).
Proof. exists r, [], []; intros w; unfold lift; now rewrite emit_nil. Qed.

Lemma writes_only_fail {A} c msg : writes_only (@fail A c msg).
Proof. exact (writes_only_lift (Err c msg)). Qed.

Lemma writes_only_lift_prepend {A} (r : Result A) ctx :
  writes_only (lift_prepend r ctx).
Proof. apply writes_only_lift. Qed.

Lemma writes_only_print s : writes_only (print s).
Proof. exists OK, [s], []; intros w; apply print_emit. Qed.

Lemma writes_only_log l : writes_only (log l).
Proof. exists OK, [], [l]; intros w; apply log_emit. Qed.

Lemma writes_only_bind {A B} (m : M A) (k : A -> M B) :
  writes_only m -> (forall a, writes_only (k a)) -> writes_only (bind m k).
Proof.
  intros (r & o & g & Hm) Hk; destruct r as [a|c msg].
  - destruct (Hk a) as (r' & o' & g' & Hka).
    exists r', (o ++ o')%list, (g ++ g')%list; intros w.
    unfold bind; now rewrite Hm, Hka, emit_emit.
  - exists (Err c msg), o, g; intros w; unfold bind; now rewrite Hm.
Qed.

Lemma writes_only_if {A} (b : bool) (m1 m2 : M A) :
  writes_only m1 -> writes_only m2 -> writes_only (if b then m1 else m2).
Proof. now destruct b. Qed.

Lemma writes_only_for_each {A} (body : A -> M unit) (l : list A) :
  (forall x, writes_only (body x)) -> writes_only (for_each body l).
Proof.
  intros Hbody; induction l as [|x rest IH]; simpl.
  - apply writes_only_ret.
  - apply writes_only_bind; auto.
Qed.

#[local] Hint Resolve writes_only_ret writes_only_lift writes_only_fail
  writes_only_lift_prepend writes_only_print writes_only_log
  writes_only_if writes_only_for_each : writes.
#[local] Hint Extern 2 (writes_only (bind _ _)) =>
  apply writes_only_bind; [|intro] : writes.

Lemma writes_only_PrintLogSegmentHeader lib t path indent :
  writes_only (PrintLogSegmentHeader lib t path indent).
Proof.
  exists (header_status t path), (header_out lib t path indent),
         (header_diag lib t path).
  intros w; apply PrintLogSegmentHeader_writes.
Qed.

#[local] Hint Resolve writes_only_PrintLogSegmentHeader : writes.

Lemma writes_only_ListSegmentsInDir lib t dir :
  writes_only (ListSegmentsInDir lib t dir).
Proof.
  unfold ListSegmentsInDir, ListSegmentsInDir_segment, ListSegmentsInDir_entry.
  auto 8 with writes.
Qed.

#[local] Hint Resolve writes_only_ListSegmentsInDir : writes.

Lemma writes_only_ListAllLogSegments_child lib t table_wal_dir child :
  writes_only (ListAllLogSegments_child lib t table_wal_dir child).
Proof. unfold ListAllLogSegments_child; auto 8 with writes. Qed.

(** Two runs of a computation that only writes, from worlds that agree on
    standard output: same result, same standard output. *)
Lemma writes_only_cout {A} (m : M A) (w1 w2 : World) :
  writes_only m -> cout w1 = cout w2 ->
  fst (m w1) = fst (m w2) /\ cout (snd (m w1)) = cout (snd (m w2)).
Proof.
  intros (r & o & g & Hm) Hw; rewrite !Hm; simpl; now rewrite Hw.
Qed.

(** ** Prefixes and suffixes of names *)

Lemma length_append (a b : string) :
  String.length (a ++ b) = String.length a + String.length b.
Proof. induction a as [|c a IH]; simpl; [reflexivity | now rewrite IH]. Qed.

Lemma substring_all (s : string) : substring 0 (String.length s) s = s.
Proof. induction s as [|c s IH]; simpl; [reflexivity | now rewrite IH]. Qed.

Lemma substring_after (a b : string) :
  substring (String.length a) (String.length b) (a ++ b) = b.
Proof. induction a as [|c a IH]; simpl; [apply substring_all | exact IH]. Qed.

Lemma substring_split (n : nat) (s : string) :
  n <= String.length s ->
  s = substring 0 n s ++ substring n (String.length s - n) s.
Proof.
  revert s; induction n as [|n IH]; intros s Hn.
  - destruct s; simpl; [reflexivity|].
    now rewrite substring_all.
  - destruct s as [|c s]; simpl in *; [lia|].
    f_equal; apply IH; lia.
Qed.

(** [HasSuffixString s suffix] holds exactly when [s] ends with
    [suffix]. *)
Lemma HasSuffixString_spec (s suffix : string) :
  HasSuffixString s suffix = true <-> exists stem, s = stem ++ suffix.
Proof.
  unfold HasSuffixString; rewrite andb_true_iff, Nat.leb_le, String.eqb_eq.
  split.
  - intros [Hlen Hsub].
    exists (substring 0 (String.length s - String.length suffix) s).
    set (n := String.length s - String.length suffix) in *.
    transitivity (substring 0 n s ++ substring n (String.length s - n) s);
      [apply substring_split; lia|].
    f_equal.
    replace (String.length s - n) with (String.length suffix) by lia.
    exact Hsub.
  - intros [stem ->]; rewrite length_append; split; [lia|].
    replace (String.length stem + String.length suffix - String.length suffix)
      with (String.length stem) by lia.
    apply substring_after.
Qed.

(** [has_dot_prefix s] holds exactly when [s] begins with a dot. *)
Lemma has_dot_prefix_spec (s : string) :
  has_dot_prefix s = true <-> exists rest, s = "." ++ rest.
Proof.
  unfold has_dot_prefix, HasPrefixString; split.
  - destruct s as [|c s]; cbn [String.prefix]; [discriminate|].
    destruct (ascii_dec "."%char c) as [<-|]; [|discriminate].
    intros _; now exists s.
  - intros [rest ->]; now destruct rest.
Qed.

Lemma occurs_in_middle (a sub b : string) : occurs_in sub (a ++ sub ++ b).
Proof. now exists a, b. Qed.

(** ** The directory walker *)

Section Walker.

Variable lib : Externals.
Variable t : FsTool.

Lemma remove_if_hidden (pre post : list string) (h : string) :
  has_dot_prefix h = true ->
  remove_if has_dot_prefix (pre ++ h :: post)
  = remove_if has_dot_prefix (pre ++ post).
Proof.
  intros Hh; unfold remove_if; rewrite !filter_app; simpl; now rewrite Hh.
Qed.

Lemma ListAllLogSegments_child_hidden table_wal_dir h w :
  has_dot_prefix h = true ->
  ListAllLogSegments_child lib t table_wal_dir h w
  = (OK, emit [] [VLOG 1 ("Ignoring hidden file in root log directory " ++ h)] w).
Proof.
  intros Hh; unfold ListAllLogSegments_child; rewrite Hh; apply log_emit.
Qed.

Lemma ListAllLogSegments_child_visible table_wal_dir child w :
  has_dot_prefix child = false ->
  let path := JoinPathSegments lib table_wal_dir child in
  let label := if HasSuffixString child (kWalsRecoveryDirSuffix lib)
               then "Log recovery dir found: " else "Log directory: " in
  ListAllLogSegments_child lib t table_wal_dir child w
  = ListSegmentsInDir lib t path (emit [label ++ path ++ endl] [] w).
Proof.
  intros Hv path label; unfold ListAllLogSegments_child; rewrite Hv.
  subst label; fold path.
  destruct (HasSuffixString child (kWalsRecoveryDirSuffix lib));
    unfold bind at 1; now rewrite print_emit.
Qed.

Lemma ListAllLogSegments_root_missing wals_dir w :
  Exists (fs_manager_ t) wals_dir = false ->
  ListAllLogSegments_root lib t wals_dir w
  = (Err Corruption ("root log directory '" ++ wals_dir ++ "' does not exist"),
     w).
Proof. intros He; unfold ListAllLogSegments_root; now rewrite He. Qed.

End Walker.

(** C2 (amended).  A WAL root directory that does not exist makes
    [ListAllLogSegments] fail.  The walk, on reaching that root, returns a
    Corruption status whose message names the root, prints nothing for it
    and walks none of the roots after it. *)
Theorem ListAllLogSegments_missing_root lib t before wals_dir after w :
  GetWalRootDirs (fs_manager_ t) = (before ++ wals_dir :: after)%list ->
  Exists (fs_manager_ t) wals_dir = false ->
  let failure : Status :=
    Err Corruption ("root log directory '" ++ wals_dir ++ "' does not exist") in
  (forall w', ListAllLogSegments_root lib t wals_dir w' = (failure, w'))
  /\ (forall w', for_each (ListAllLogSegments_root lib t) before w = (OK, w') ->
                 ListAllLogSegments lib t w = (failure, w'))
  /\ ok (fst (ListAllLogSegments lib t w)) = false
  /\ occurs_in wals_dir (message failure).
Proof.
  intros Hroots Hmissing failure.
  assert (Hroot : forall w', ListAllLogSegments_root lib t wals_dir w'
                             = (failure, w'))
    by (intros w'; now apply ListAllLogSegments_root_missing).
  assert (Hwalk : ListAllLogSegments lib t w
                  = (for_each (ListAllLogSegments_root lib t) before ;;
                     for_each (ListAllLogSegments_root lib t) (wals_dir :: after)) w)
    by (unfold ListAllLogSegments; rewrite Hroots; apply for_each_app).
  repeat split.
  - exact Hroot.
  - intros w' Hbefore; rewrite Hwalk.
    rewrite (bind_Ok _ _ _ _ _ Hbefore); simpl.
    now rewrite (bind_Err _ _ _ _ _ _ (Hroot w')).
  - rewrite Hwalk; unfold bind at 1.
    destruct (for_each (ListAllLogSegments_root lib t) before w)
      as [[[]|c msg] w']; [|reflexivity].
    simpl; now rewrite (bind_Err _ _ _ _ _ _ (Hroot w')).
  - apply (occurs_in_middle "root log directory '" wals_dir "' does not exist").
Qed.

Lemma ListAllLogSegments_missing_root_witness :
  let t := Sample.tool ID_ONLY ["/wals"; "/gone"; "/wals"] in
  GetWalRootDirs (fs_manager_ t) = (["/wals"] ++ "/gone" :: ["/wals"])%list
  /\ Exists (fs_manager_ t) "/gone" = false
  /\ ListAllLogSegments Sample.lib t Sample.w0
     = (Err Corruption "root log directory '/gone' does not exist",
        snd (ListAllLogSegments Sample.lib (Sample.tool ID_ONLY ["/wals"])
               Sample.w0)).
Proof.
  intros t; split; [reflexivity|]; split; [reflexivity|].
  destruct (ListAllLogSegments_missing_root Sample.lib t ["/wals"] "/gone"
              ["/wals"] Sample.w0 eq_refl eq_refl) as (_ & Hreach & _).
  apply Hreach; reflexivity.
Defined.

(** C2 as stated fails: the status returned for a missing root is
    Corruption, not NotFound. *)
Lemma ListAllLogSegments_missing_root_is_not_NotFound :
  let t := Sample.tool ID_ONLY ["/gone"] in
  In "/gone" (GetWalRootDirs (fs_manager_ t))
  /\ Exists (fs_manager_ t) "/gone" = false
  /\ ListAllLogSegments Sample.lib t Sample.w0
     = (Err Corruption "root log directory '/gone' does not exist", Sample.w0)
  /\ IsNotFound (fst (ListAllLogSegments Sample.lib t Sample.w0)) = false.
Proof. simpl; repeat split; now left. Qed.

(** The loop body on a child whose name does not begin with a dot: it is
    of exactly one kind, by the suffix of its name, the label printed is
    that of its kind, and the directory is scanned. *)
Lemma ListAllLogSegments_child_labelled lib t table_wal_dir child w :
  has_dot_prefix child = false ->
  let path := JoinPathSegments lib table_wal_dir child in
  let ends_with_suffix := exists stem, child = stem ++ kWalsRecoveryDirSuffix lib in
  exists kind : DirKind,
    (kind = RecoveryDir <-> ends_with_suffix)
    /\ (kind = LogDir <-> ~ ends_with_suffix)
    /\ ListAllLogSegments_child lib t table_wal_dir child w
       = ListSegmentsInDir lib t path
           (emit [DirKind_label kind ++ path ++ endl] [] w)
    /\ DirKind_label RecoveryDir <> DirKind_label LogDir.
Proof.
  intros Hvisible path ends_with_suffix.
  pose proof (ListAllLogSegments_child_visible lib t table_wal_dir child w
                Hvisible) as Hrun; simpl in Hrun; fold path in Hrun.
  pose proof (HasSuffixString_spec child (kWalsRecoveryDirSuffix lib)) as Hspec.
  fold ends_with_suffix in Hspec.
  destruct (HasSuffixString child (kWalsRecoveryDirSuffix lib)).
  - exists RecoveryDir; split; [|split; [|split]].
    + tauto.
    + split; [discriminate | intros Hnot; exfalso; apply Hnot; tauto].
    + exact Hrun.
    + discriminate.
  - assert (Hnot : ~ ends_with_suffix)
      by (intros H; apply Hspec in H; discriminate).
    exists LogDir; split; [|split; [|split]].
    + split; [discriminate | tauto].
    + tauto.
    + exact Hrun.
    + discriminate.
Qed.

(** ** The segments of one tablet *)

Lemma ListLogSegmentsForTablet_unloadable lib t tablet_id c msg w :
  TabletMetadata_Load (fs_manager_ t) tablet_id = Err c msg ->
  ListLogSegmentsForTablet lib t tablet_id w = (Err c msg, w).
Proof. intros Hload; unfold ListLogSegmentsForTablet; now rewrite Hload. Qed.

Lemma ListLogSegmentsForTablet_no_logs lib t tablet_id meta w :
  TabletMetadata_Load (fs_manager_ t) tablet_id = Ok meta ->
  Exists (fs_manager_ t) (wal_dir meta) = false ->
  ListLogSegmentsForTablet lib t tablet_id w
  = (Err NotFound ("tablet '" ++ tablet_id ++ "' has no logs in wals dir '"
                   ++ wal_dir meta ++ "'"), w).
Proof.
  intros Hload Hmissing; unfold ListLogSegmentsForTablet; rewrite Hload.
  unfold bind, lift; now rewrite Hmissing.
Qed.

Lemma ListLogSegmentsForTablet_logs lib t tablet_id meta w :
  TabletMetadata_Load (fs_manager_ t) tablet_id = Ok meta ->
  Exists (fs_manager_ t) (wal_dir meta) = true ->
  let dir := wal_dir meta in
  let recovery_dir := GetTabletWalRecoveryDir (fs_manager_ t) dir in
  ListLogSegmentsForTablet lib t tablet_id w
  = (ListSegmentsInDir lib t dir ;;
     if Exists (fs_manager_ t) recovery_dir
     then print ("Recovery dir found: " ++ recovery_dir ++ endl) ;;
          ListSegmentsInDir lib t recovery_dir
     else ret tt)
      (emit ["Tablet WAL dir found: " ++ dir ++ endl] [] w).
Proof.
  intros Hload Hexists dir recovery_dir; subst dir recovery_dir.
  unfold ListLogSegmentsForTablet.
  rewrite Hload; unfold lift, bind at 1; rewrite Hexists; simpl.
  unfold bind at 1; now rewrite print_emit.
Qed.

(** C7.  [ListLogSegmentsForTablet] on a tablet id that does not exist,
    for which loading the metadata reports NotFound with the id in the
    message, or whose WAL directory is missing: the status returned is
    NotFound, its message holds the tablet id, and the world is the one
    the call started from, so nothing went to standard output. *)
Theorem ListLogSegmentsForTablet_missing lib t tablet_id w :
  Load_reports_missing (fs_manager_ t) tablet_id
  \/ (exists meta,
        TabletMetadata_Load (fs_manager_ t) tablet_id = Ok meta /\
        Exists (fs_manager_ t) (wal_dir meta) = false) ->
  exists msg,
    ListLogSegmentsForTablet lib t tablet_id w = (Err NotFound msg, w)
    /\ occurs_in tablet_id msg
    /\ cout (snd (ListLogSegmentsForTablet lib t tablet_id w)) = cout w.
Proof.
  intros [(msg & Hload & Hid) | (meta & Hload & Hmissing)].
  - exists msg.
    rewrite (ListLogSegmentsForTablet_unloadable _ _ _ _ _ _ Hload); auto.
  - eexists.
    rewrite (ListLogSegmentsForTablet_no_logs _ _ _ _ _ Hload Hmissing).
    repeat split.
    apply (occurs_in_middle "tablet '").
Qed.

Lemma ListLogSegmentsForTablet_missing_witness :
  let t := Sample.tool FULL ["/wals"] in
  Load_reports_missing (fs_manager_ t) "missing-id"
  /\ exists msg,
       ListLogSegmentsForTablet Sample.lib t "missing-id" Sample.w0
       = (Err NotFound msg, Sample.w0)
       /\ occurs_in "missing-id" msg.
Proof.
  intros t.
  assert (Hmissing : Load_reports_missing (fs_manager_ t) "missing-id").
  { eexists; split; [reflexivity|].
    exists "Could not load tablet metadata from /meta/",
           ": No such file or directory"; reflexivity. }
  split; [exact Hmissing|].
  destruct (ListLogSegmentsForTablet_missing Sample.lib t "missing-id" Sample.w0
              (or_introl Hmissing)) as (msg & Hrun & Hid & _).
  exists msg; split; [exact Hrun | exact Hid].
Defined.

(** C8 (amended).  For a tablet whose WAL directory exists,
    [ListLogSegmentsForTablet] prints the directory and scans it.  When
    that scan fails its status is returned and the recovery directory is
    not looked at.  When it succeeds, the recovery directory is scanned if
    and only if it exists: if it exists its path is printed and it is
    scanned, and otherwise the call returns OK with nothing more written.
    In every case the absence of the recovery directory adds no error: the
    call then returns what the scan of the WAL directory returned. *)
Theorem ListLogSegmentsForTablet_scans lib t tablet_id meta w :
  TabletMetadata_Load (fs_manager_ t) tablet_id = Ok meta ->
  Exists (fs_manager_ t) (wal_dir meta) = true ->
  let dir := wal_dir meta in
  let recovery_dir := GetTabletWalRecoveryDir (fs_manager_ t) dir in
  let wal_scan :=
    ListSegmentsInDir lib t dir
      (emit ["Tablet WAL dir found: " ++ dir ++ endl] [] w) in
  let run := ListLogSegmentsForTablet lib t tablet_id w in
  (forall c msg, fst wal_scan = Err c msg -> run = wal_scan)
  /\ (fst wal_scan = OK -> Exists (fs_manager_ t) recovery_dir = true ->
      run = ListSegmentsInDir lib t recovery_dir
              (emit ["Recovery dir found: " ++ recovery_dir ++ endl] []
                 (snd wal_scan)))
  /\ (fst wal_scan = OK -> Exists (fs_manager_ t) recovery_dir = false ->
      run = (OK, snd wal_scan))
  /\ (Exists (fs_manager_ t) recovery_dir = false -> run = wal_scan).
Proof.
  intros Hload Hexists dir recovery_dir wal_scan run.
  assert (Hrun : run =
            match wal_scan with
            | (Ok _, w1) =>
                if Exists (fs_manager_ t) recovery_dir
                then ListSegmentsInDir lib t recovery_dir
                       (emit ["Recovery dir found: " ++ recovery_dir ++ endl] [] w1)
                else (OK, w1)
            | (Err c msg, w1) => (Err c msg, w1)
            end).
  { subst run wal_scan.
    rewrite (ListLogSegmentsForTablet_logs lib t tablet_id meta w Hload Hexists).
    fold dir recovery_dir; unfold bind at 1.
    destruct (ListSegmentsInDir lib t dir _) as [[[]|c msg] w1]; [|reflexivity].
    destruct (Exists (fs_manager_ t) recovery_dir); [|reflexivity].
    unfold bind; now rewrite print_emit. }
  clearbody run wal_scan; subst run.
  unfold OK; destruct wal_scan as [[[]|c msg] w1]; simpl.
  - split; [discriminate|].
    destruct (Exists (fs_manager_ t) recovery_dir);
      repeat split; intros; congruence.
  - repeat split; intros; congruence.
Qed.

Lemma ListLogSegmentsForTablet_scans_witness :
  let t := Sample.tool ID_ONLY ["/wals"] in
  TabletMetadata_Load (fs_manager_ t) "TAB1" = Ok (Sample.meta1 "/wals/T1/TAB1")
  /\ Exists (fs_manager_ t) "/wals/T1/TAB1" = true
  /\ ListLogSegmentsForTablet Sample.lib t "TAB1" Sample.w0
     = (OK, mkWorld [ "Tablet WAL dir found: /wals/T1/TAB1" ++ endl;
                      "Segments in /wals/T1/TAB1:" ++ endl;
                      tab ++ "wal-000000001" ++ endl;
                      tab ++ "wal-000000002" ++ endl;
                      "Recovery dir found: /wals/T1/TAB1.recovery" ++ endl;
                      "Segments in /wals/T1/TAB1.recovery:" ++ endl;
                      tab ++ "wal-000000001" ++ endl ] []).
Proof.
  intros t; split; [reflexivity|]; split; [reflexivity|].
  destruct (ListLogSegmentsForTablet_scans Sample.lib t "TAB1"
              (Sample.meta1 "/wals/T1/TAB1") Sample.w0 eq_refl eq_refl)
    as (_ & Hboth & _).
  exact (Hboth eq_refl eq_refl).
Defined.

(** C8 as stated fails: the WAL directory and the recovery directory of
    the tablet both exist, yet a segment of the WAL directory that cannot
    be opened ends the call before the recovery directory is scanned. *)
Lemma ListLogSegmentsForTablet_recovery_not_scanned :
  let t := Sample.tool HEADERS_ONLY ["/wals"] in
  let run := ListLogSegmentsForTablet Sample.lib t "TAB2" Sample.w0 in
  TabletMetadata_Load (fs_manager_ t) "TAB2" = Ok (Sample.meta1 "/wals/T1/TAB2")
  /\ Exists (fs_manager_ t) "/wals/T1/TAB2" = true
  /\ Exists (fs_manager_ t)
       (GetTabletWalRecoveryDir (fs_manager_ t) "/wals/T1/TAB2") = true
  /\ run = (Err IOError ("Unexpected error reading log segment "
                         ++ "/wals/T1/TAB2/wal-000000001: Permission denied"),
            mkWorld [ "Tablet WAL dir found: /wals/T1/TAB2" ++ endl;
                      "Segments in /wals/T1/TAB2:" ++ endl;
                      "Segment: wal-000000001" ++ endl ] [])
  /\ existsb (fun chunk => contains chunk "/wals/T1/TAB2.recovery")
       (cout (snd run)) = false.
Proof. repeat split. Qed.

(** ** Detail levels *)

(** C10.  Every method of the tool does at [FULL] exactly what it does at
    [HEADERS_ONLY], on every file system and from every world: the only
    tests of the detail level are [detail_level_ >= HEADERS_ONLY]. *)
Theorem FULL_is_HEADERS_ONLY lib t :
  let full := with_detail_level t FULL in
  let headers := with_detail_level t HEADERS_ONLY in
  (forall path indent,
     PrintLogSegmentHeader lib full path indent
     = PrintLogSegmentHeader lib headers path indent)
  /\ (forall dir, ListSegmentsInDir lib full dir = ListSegmentsInDir lib headers dir)
  /\ ListAllLogSegments lib full = ListAllLogSegments lib headers
  /\ (forall tablet_id,
        ListLogSegmentsForTablet lib full tablet_id
        = ListLogSegmentsForTablet lib headers tablet_id)
  /\ (forall tablet_id indent,
        PrintTabletMeta full tablet_id indent
        = PrintTabletMeta headers tablet_id indent)
  /\ ListAllTablets full = ListAllTablets headers
  /\ FsTree full = FsTree headers
  /\ (forall tablet_id,
        DumpTabletData full tablet_id = DumpTabletData headers tablet_id)
  /\ (forall indent, PrintUUID full indent = PrintUUID headers indent).
Proof. intros full headers; repeat split. Qed.

(** The listing of all tablets *)

Lemma PrintTabletMeta_writes t tablet_id indent w :
  PrintTabletMeta t tablet_id indent w
  = (meta_status t tablet_id, emit (meta_out t tablet_id indent) [] w).
Proof.
  unfold PrintTabletMeta, meta_status, meta_out.
  destruct (TabletMetadata_Load (fs_manager_ t) tablet_id) as [meta|c msg];
    [|unfold bind, lift; simpl; now rewrite emit_nil].
  unfold bind at 1, lift; simpl.
  destruct (ToSuperBlock meta) as [pb|c msg];
    unfold bind, lift_prepend, lift; simpl; f_equal; streams.
Qed.

Lemma ListAllTablets_tablet_id t tablet w :
  DetailLevel_geb (detail_level_ t) HEADERS_ONLY = false ->
  ListAllTablets_tablet t tablet w
  = (OK, emit (tablet_id_entry tablet) [] w).
Proof. unfold ListAllTablets_tablet; intros ->; now rewrite print_emit. Qed.

Lemma ListAllTablets_tablet_full t tablet w :
  DetailLevel_geb (detail_level_ t) HEADERS_ONLY = true ->
  ListAllTablets_tablet t tablet w
  = (meta_status t tablet, emit (tablet_full_entry t tablet) [] w).
Proof.
  unfold ListAllTablets_tablet; intros ->.
  unfold bind; rewrite print_emit, PrintTabletMeta_writes, emit_emit.
  reflexivity.
Qed.

Lemma ListAllTablets_id t tablets w :
  ListTabletIds (fs_manager_ t) = Ok tablets ->
  DetailLevel_geb (detail_level_ t) HEADERS_ONLY = false ->
  ListAllTablets t w = (OK, emit (flat_map tablet_id_entry tablets) [] w).
Proof.
  intros Hids Hlevel; unfold ListAllTablets; rewrite Hids.
  unfold lift, bind at 1.
  rewrite (for_each_writes _ (fun _ => OK) tablet_id_entry (fun _ => []) _
             (fun x w0 => ListAllTablets_tablet_id t x w0 Hlevel)).
  destruct (outcome_const_OK (A := string) tablets) as [-> ->].
  now rewrite firstn_all, flat_map_nil.
Qed.

Lemma ListAllTablets_full t tablets w :
  ListTabletIds (fs_manager_ t) = Ok tablets ->
  DetailLevel_geb (detail_level_ t) HEADERS_ONLY = true ->
  ListAllTablets t w
  = (outcome (meta_status t) tablets,
     emit (flat_map (tablet_full_entry t)
             (firstn (processed (meta_status t) tablets) tablets)) [] w).
Proof.
  intros Hids Hlevel; unfold ListAllTablets; rewrite Hids.
  unfold lift, bind at 1.
  rewrite (for_each_writes _ (meta_status t) (tablet_full_entry t)
             (fun _ => []) _
             (fun x w0 => ListAllTablets_tablet_full t x w0 Hlevel)).
  now rewrite flat_map_nil.
Qed.

(** C6 (amended).  For the same directory, or the same set of tablets, and
    the same file system, the run at [FULL] is the run at [HEADERS_ONLY].
    The run at [HEADERS_ONLY] does not repeat the lines of the run at
    [ID_ONLY]: an item that [ID_ONLY] prints as a tab and its name is
    printed as "Segment: " or "Tablet: " and its name, followed by its
    details.  Whenever it returns OK it lists, under the same heading,
    exactly the items that [ID_ONLY] lists, in the same order. *)
Theorem detail_levels_list_the_same_items lib t :
  let id_only := with_detail_level t ID_ONLY in
  let headers := with_detail_level t HEADERS_ONLY in
  let full := with_detail_level t FULL in
  (forall dir w,
     ListSegmentsInDir lib full dir w = ListSegmentsInDir lib headers dir w)
  /\ (forall w, ListAllTablets full w = ListAllTablets headers w)
  /\ (forall dir segments w,
        ListDir (fs_manager_ t) dir = Ok segments ->
        let names := filter (IsLogFileName lib) segments in
        let heading := "Segments in " ++ dir ++ ":" ++ endl in
        ListSegmentsInDir lib id_only dir w
        = (OK, emit (heading :: flat_map segment_id_entry names) [] w)
        /\ (fst (ListSegmentsInDir lib headers dir w) = OK ->
            cout (snd (ListSegmentsInDir lib headers dir w))
            = (cout w ++ heading
                 :: flat_map (segment_full_entry lib t dir) names)%list))
  /\ (forall tablets w,
        ListTabletIds (fs_manager_ t) = Ok tablets ->
        ListAllTablets id_only w
        = (OK, emit (flat_map tablet_id_entry tablets) [] w)
        /\ (fst (ListAllTablets headers w) = OK ->
            cout (snd (ListAllTablets headers w))
            = (cout w ++ flat_map (tablet_full_entry t) tablets)%list)).
Proof.
  intros id_only headers full.
  split; [reflexivity|]; split; [reflexivity|]; split.
  - intros dir segments w Hls names heading; split.
    + now apply ListSegmentsInDir_id.
    + rewrite (ListSegmentsInDir_full lib headers dir segments w Hls eq_refl).
      cbn [fst snd]; intros Hok.
      rewrite outcome_OK_processed, firstn_all by exact Hok.
      reflexivity.
  - intros tablets w Hids; split.
    + now apply ListAllTablets_id.
    + rewrite (ListAllTablets_full headers tablets w Hids eq_refl).
      cbn [fst snd]; intros Hok.
      rewrite outcome_OK_processed, firstn_all by exact Hok.
      reflexivity.
Qed.

Lemma detail_levels_list_the_same_items_witness :
  let t := Sample.tool ID_ONLY ["/wals"] in
  let dir := "/wals/T1/TAB1" in
  ListDir (fs_manager_ t) dir
  = Ok ["wal-000000001"; "stray.txt"; "wal-000000002"]
  /\ fst (ListSegmentsInDir Sample.lib (with_detail_level t HEADERS_ONLY) dir
            Sample.w0) = OK
  /\ ListSegmentsInDir Sample.lib (with_detail_level t ID_ONLY) dir Sample.w0
     = (OK, mkWorld [ "Segments in /wals/T1/TAB1:" ++ endl;
                      tab ++ "wal-000000001" ++ endl;
                      tab ++ "wal-000000002" ++ endl ] [])
  /\ cout (snd (ListSegmentsInDir Sample.lib (with_detail_level t HEADERS_ONLY)
                  dir Sample.w0))
     = [ "Segments in /wals/T1/TAB1:" ++ endl;
         "Segment: wal-000000001" ++ endl;
         "  Size: 1K" ++ endl;
         "  Header: " ++ endl;
         "  major_version: 1" ++ endl ++ "  minor_version: 0" ++ endl ++ "  ";
         "Segment: wal-000000002" ++ endl ].
Proof.
  intros t dir; split; [reflexivity|]; split; [reflexivity|].
  destruct (detail_levels_list_the_same_items Sample.lib t)
    as (_ & _ & Hsegments & _).
  destruct (Hsegments dir ["wal-000000001"; "stray.txt"; "wal-000000002"]
              Sample.w0 eq_refl) as [Hid Hheaders].
  split; [exact Hid | exact (Hheaders eq_refl)].
Defined.

(** C6 as stated fails: on the sample directory, and on the sample set of
    tablets, both runs return OK and lines of the output at [ID_ONLY] are
    missing from the output at [HEADERS_ONLY]. *)
Lemma HEADERS_ONLY_output_is_not_a_superset_of_ID_ONLY :
  let id_only := Sample.tool ID_ONLY ["/wals"] in
  let headers := Sample.tool HEADERS_ONLY ["/wals"] in
  let dir := "/wals/T1/TAB1" in
  let out_id := snd (ListSegmentsInDir Sample.lib id_only dir Sample.w0) in
  let out_headers := snd (ListSegmentsInDir Sample.lib headers dir Sample.w0) in
  fs_manager_ id_only = fs_manager_ headers
  /\ fst (ListSegmentsInDir Sample.lib id_only dir Sample.w0) = OK
  /\ fst (ListSegmentsInDir Sample.lib headers dir Sample.w0) = OK
  /\ In (tab ++ "wal-000000001") (lines (cout_text out_id))
  /\ ~ In (tab ++ "wal-000000001") (lines (cout_text out_headers))
  /\ line_superset (lines (cout_text out_headers)) (lines (cout_text out_id))
     = false
  /\ line_superset
       (lines (cout_text (snd (ListAllTablets headers Sample.w0))))
       (lines (cout_text (snd (ListAllTablets id_only Sample.w0))))
     = false.
Proof.
  cbv zeta; repeat split; try reflexivity.
  - vm_compute; tauto.
  - vm_compute; intros H.
    repeat (destruct H as [H|H]; [discriminate H|]); exact H.
Qed.

(** ** Indentation *)

Lemma append_assoc (a b c : string) : (a ++ b) ++ c = a ++ b ++ c.
Proof. induction a as [|x a IH]; simpl; [reflexivity | now rewrite IH]. Qed.

Lemma append_nil_r (a : string) : a ++ "" = a.
Proof. induction a as [|x a IH]; simpl; [reflexivity | now rewrite IH]. Qed.

Lemma length_Indent (n : nat) : String.length (Indent n) = n.
Proof. induction n as [|n IH]; simpl; [reflexivity | now rewrite IH]. Qed.

(** One step of the replacement of the newlines of a text. *)
Lemma StringReplace_newline_cons (c : ascii) (rest newsub : string) :
  StringReplace (String c rest) endl newsub true
  = if Ascii.eqb c (ascii_of_nat 10)
    then newsub ++ StringReplace rest endl newsub true
    else String c (StringReplace rest endl newsub true).
Proof.
  unfold StringReplace, endl.
  cbn [StringReplace_from andb negb String.eqb String.prefix String.length
       Nat.sub].
  destruct (ascii_dec (ascii_of_nat 10) c) as [<-|Hne].
  - rewrite Ascii.eqb_refl; now destruct rest.
  - destruct (Ascii.eqb_spec c (ascii_of_nat 10)) as [->|_];
      [now elim Hne | reflexivity].
Qed.

Lemma StringReplace_newline_nil (newsub : string) :
  StringReplace "" endl newsub true = "".
Proof. reflexivity. Qed.

Lemma StringReplace_newline_endl (newsub : string) :
  StringReplace endl endl newsub true = newsub.
Proof.
  unfold endl at 1; rewrite StringReplace_newline_cons, Ascii.eqb_refl.
  rewrite StringReplace_newline_nil; apply append_nil_r.
Qed.

Lemma StringReplace_newline_app (a b newsub : string) :
  StringReplace (a ++ b) endl newsub true
  = StringReplace a endl newsub true ++ StringReplace b endl newsub true.
Proof.
  induction a as [|c a IH]; [reflexivity|].
  change (String c a ++ b) with (String c (a ++ b)).
  rewrite !StringReplace_newline_cons, IH.
  destruct (Ascii.eqb c (ascii_of_nat 10)); [now rewrite append_assoc|].
  reflexivity.
Qed.

Lemma StringReplace_no_newline (s newsub : string) :
  count_newlines s = 0 -> StringReplace s endl newsub true = s.
Proof.
  induction s as [|c s IH]; [reflexivity|].
  rewrite StringReplace_newline_cons; simpl.
  destruct (Ascii.eqb c (ascii_of_nat 10)); [discriminate|].
  now intros H; rewrite IH.
Qed.

Lemma length_StringReplace_newline (s newsub : string) :
  String.length (StringReplace s endl newsub true) + count_newlines s
  = String.length s + count_newlines s * String.length newsub.
Proof.
  induction s as [|c s IH]; [reflexivity|].
  rewrite StringReplace_newline_cons; simpl.
  destruct (Ascii.eqb c (ascii_of_nat 10)); simpl.
  - rewrite length_append; lia.
  - lia.
Qed.

Lemma IndentString_app_newline (a b : string) (indent : nat) :
  IndentString (a ++ endl ++ b) indent
  = IndentString a indent ++ endl ++ IndentString b indent.
Proof.
  unfold IndentString; rewrite !StringReplace_newline_app.
  rewrite StringReplace_newline_endl.
  now rewrite !append_assoc.
Qed.

Lemma IndentString_nil (indent : nat) : IndentString "" indent = Indent indent.
Proof. unfold IndentString; simpl; apply append_nil_r. Qed.

Lemma IndentString_no_newline (a : string) (indent : nat) :
  count_newlines a = 0 -> IndentString a indent = Indent indent ++ a.
Proof.
  intros Hnone; unfold IndentString; now rewrite StringReplace_no_newline.
Qed.

(** X1.  [IndentString] puts the indentation in front of the text and
    after each of its newlines, and nowhere else: it distributes over a
    newline, a text without newline is only prefixed, and the empty text
    gives the bare indentation. *)
Theorem IndentString_newline (a b : string) (indent : nat) :
  IndentString (a ++ endl ++ b) indent
  = IndentString a indent ++ endl ++ IndentString b indent
  /\ IndentString "" indent = Indent indent
  /\ (count_newlines a = 0 -> IndentString a indent = Indent indent ++ a).
Proof.
  split; [apply IndentString_app_newline|].
  split; [apply IndentString_nil | apply IndentString_no_newline].
Qed.

Lemma IndentString_newline_witness :
  count_newlines "minor_version: 0" = 0
  /\ IndentString "minor_version: 0" 2 = "  minor_version: 0".
Proof.
  split; [reflexivity|].
  exact (proj2 (proj2 (IndentString_newline "minor_version: 0" "" 2)) eq_refl).
Defined.

(** X2.  A text made of newline-terminated lines is indented line by
    line, and the indentation is also written after the last newline: the
    result ends with the bare indentation and no newline. *)
Theorem IndentString_unlines (ls : list string) (indent : nat) :
  Forall (fun l => count_newlines l = 0) ls ->
  IndentString (unlines ls) indent
  = fold_right (fun l rest => Indent indent ++ l ++ endl ++ rest)
      (Indent indent) ls.
Proof.
  induction 1 as [|l ls Hl _ IH].
  - apply IndentString_nil.
  - change (IndentString (l ++ endl ++ unlines ls) indent
            = Indent indent ++ l ++ endl
              ++ fold_right (fun l rest => Indent indent ++ l ++ endl ++ rest)
                   (Indent indent) ls).
    rewrite <- IH, IndentString_app_newline, IndentString_no_newline by exact Hl.
    apply append_assoc.
Qed.

Lemma IndentString_unlines_witness :
  Forall (fun l => count_newlines l = 0) ["major_version: 1"; "minor_version: 0"]
  /\ IndentString (unlines ["major_version: 1"; "minor_version: 0"]) 2
     = "  major_version: 1" ++ endl ++ "  minor_version: 0" ++ endl ++ "  ".
Proof.
  assert (Hlines : Forall (fun l => count_newlines l = 0)
                     ["major_version: 1"; "minor_version: 0"])
    by (repeat constructor).
  split; [exact Hlines|].
  exact (IndentString_unlines ["major_version: 1"; "minor_version: 0"] 2 Hlines).
Defined.

Lemma StringReplace_newline_same (s : string) :
  StringReplace s endl endl true = s.
Proof.
  induction s as [|c s IH]; [reflexivity|].
  rewrite StringReplace_newline_cons, IH.
  destruct (Ascii.eqb_spec c (ascii_of_nat 10)) as [->|_]; reflexivity.
Qed.

(** [IndentString] against the reference: the indentation, then the text
    with the indentation after each newline. *)
Lemma IndentString_indented (s : string) (indent : nat) :
  IndentString s indent = string_of_spaces indent ++ indented indent s.
Proof.
  unfold IndentString, Indent; f_equal.
  induction s as [|c s IH]; [reflexivity|].
  rewrite StringReplace_newline_cons, IH; simpl indented.
  destruct (Ascii.eqb_spec c (ascii_of_nat 10)) as [->|_]; reflexivity.
Qed.

(** X3.  [IndentString] adds exactly [indent] characters for the text and
    [indent] more for each of its newlines, and with an indentation of 0
    it returns the text as it is. *)
Theorem IndentString_length (s : string) (indent : nat) :
  String.length (IndentString s indent)
  = String.length s + indent * S (count_newlines s)
  /\ IndentString s 0 = s.
Proof.
  split.
  - unfold IndentString; rewrite length_append, length_Indent.
    pose proof (length_StringReplace_newline s (endl ++ Indent indent)) as Hlen.
    rewrite length_append, length_Indent in Hlen.
    change (String.length endl) with 1 in Hlen.
    nia.
  - unfold IndentString; simpl; apply StringReplace_newline_same.
Qed.

(** ** Loops that stop *)

Lemma for_each_stops {A} (body : A -> M unit) (pre post : list A) (x : A)
    (w w1 w2 : World) c msg :
  for_each body pre w = (OK, w1) ->
  body x w1 = (Err c msg, w2) ->
  for_each body (pre ++ x :: post) w = (Err c msg, w2).
Proof.
  intros Hpre Hx; rewrite for_each_app, (bind_Ok _ _ _ _ _ Hpre); simpl.
  now rewrite (bind_Err _ _ _ _ _ _ Hx).
Qed.

Lemma outcome_first_failure {A} (st : A -> Status) (pre post : list A) (x : A)
    c msg :
  Forall (fun y => st y = OK) pre ->
  st x = Err c msg ->
  outcome st (pre ++ x :: post) = Err c msg
  /\ firstn (processed st (pre ++ x :: post)) (pre ++ x :: post)
     = (pre ++ [x])%list.
Proof.
  intros Hpre Hx; induction Hpre as [|y pre Hy _ [IH1 IH2]]; simpl.
  - now rewrite Hx.
  - rewrite Hy; simpl; split; [exact IH1 | now rewrite IH2].
Qed.

Lemma flat_map_singleton {A B} (f : A -> B) (l : list A) :
  flat_map (fun x => [f x]) l = map f l.
Proof. induction l as [|x l IH]; simpl; [reflexivity | now rewrite IH]. Qed.

(** ** Tablet metadata and tablet data *)

(** X4.  [PrintTabletMeta] on the three outcomes of reading the metadata.
    Metadata that cannot be loaded: the failure is returned as it is and
    nothing is written.  A superblock that cannot be produced: the
    partition, table and schema lines are already written when the call
    fails, with the context "Could not get superblock".  Otherwise the
    three lines and the superblock, which is not indented, are written. *)
Theorem PrintTabletMeta_outcomes t tablet_id indent w :
  let run := PrintTabletMeta t tablet_id indent w in
  match TabletMetadata_Load (fs_manager_ t) tablet_id with
  | Err c msg => run = (Err c msg, w)
  | Ok meta =>
      let described :=
        [ Indent indent ++ "Partition: " ++ PartitionDebugString meta ++ endl;
          Indent indent ++ "Table name: " ++ table_name meta
            ++ " Table id: " ++ table_id meta ++ endl;
          Indent indent ++ "Schema (version=" ++ schema_version meta ++ "): "
            ++ schema_ToString meta ++ endl ] in
      match ToSuperBlock meta with
      | Err c msg =>
          run = (Err c ("Could not get superblock: " ++ msg),
                 emit described [] w)
      | Ok pb =>
          run = (OK, emit (described
                           ++ [ "Superblock:" ++ endl
                                  ++ TabletSuperBlockPB_DebugString pb ++ endl ])
                       [] w)
      end
  end.
Proof.
  intros run; subst run; rewrite PrintTabletMeta_writes.
  unfold meta_status, meta_out.
  destruct (TabletMetadata_Load (fs_manager_ t) tablet_id) as [meta|c msg];
    [|now rewrite emit_nil].
  destruct (ToSuperBlock meta) as [pb|c msg]; [reflexivity|].
  now rewrite app_nil_r.
Qed.

Lemma DumpTabletData_lines (lines : list string) (w : World) :
  for_each (fun line => print (line ++ endl)) lines w
  = (OK, emit (map (fun line => line ++ endl) lines) [] w).
Proof.
  rewrite (for_each_writes _ (fun _ => OK) (fun line => [line ++ endl])
             (fun _ => []) lines (fun x w0 => print_emit (x ++ endl) w0)).
  destruct (outcome_const_OK (A := string) lines) as [-> ->].
  now rewrite firstn_all, flat_map_nil, flat_map_singleton.
Qed.

Lemma DumpTabletData_run t tablet_id w :
  DumpTabletData t tablet_id w
  = match TabletMetadata_Load (fs_manager_ t) tablet_id with
    | Err c msg => (Err c msg, w)
    | Ok meta =>
        match Tablet_Open meta with
        | Err c msg => (Err c ("Couldn't open tablet: " ++ msg), w)
        | Ok _ =>
            match Tablet_DebugDump meta with
            | Err c msg => (Err c ("Couldn't dump tablet: " ++ msg), w)
            | Ok lines => (OK, emit (map (fun l => l ++ endl) lines) [] w)
            end
        end
    end.
Proof.
  unfold DumpTabletData.
  destruct (TabletMetadata_Load (fs_manager_ t) tablet_id) as [meta|c msg];
    [|reflexivity].
  unfold lift, bind at 1.
  destruct (Tablet_Open meta) as [[]|c msg]; [|reflexivity].
  unfold lift_prepend, lift, bind at 1; simpl.
  destruct (Tablet_DebugDump meta) as [lines|c msg]; [|reflexivity].
  unfold bind; simpl; apply DumpTabletData_lines.
Qed.

(** X5.  [DumpTabletData] writes all the lines of the dump or nothing.
    Whenever it fails (the metadata does not load, the tablet does not
    open, the dump fails) standard output is untouched; the last two
    failures carry the contexts "Couldn't open tablet" and "Couldn't dump
    tablet".  When it succeeds it has written every line of the dump, in
    order, each followed by a newline. *)
Theorem DumpTabletData_all_or_nothing t tablet_id w :
  let run := DumpTabletData t tablet_id w in
  (ok (fst run) = false -> snd run = w)
  /\ (forall meta c msg,
        TabletMetadata_Load (fs_manager_ t) tablet_id = Ok meta ->
        Tablet_Open meta = Err c msg ->
        run = (Err c ("Couldn't open tablet: " ++ msg), w))
  /\ (forall meta c msg,
        TabletMetadata_Load (fs_manager_ t) tablet_id = Ok meta ->
        Tablet_Open meta = OK ->
        Tablet_DebugDump meta = Err c msg ->
        run = (Err c ("Couldn't dump tablet: " ++ msg), w))
  /\ (ok (fst run) = true ->
      exists meta lines,
        TabletMetadata_Load (fs_manager_ t) tablet_id = Ok meta
        /\ Tablet_DebugDump meta = Ok lines
        /\ run = (OK, emit (map (fun l => l ++ endl) lines) [] w)).
Proof.
  intros run; subst run; rewrite DumpTabletData_run; unfold OK.
  destruct (TabletMetadata_Load (fs_manager_ t) tablet_id) as [meta|c msg].
  2: { repeat split; intros; cbn [fst snd ok] in *; congruence. }
  destruct (Tablet_Open meta) as [[]|c msg] eqn:Hopen.
  2: { repeat split; intros; cbn [fst snd ok] in *; congruence. }
  destruct (Tablet_DebugDump meta) as [lines|c msg] eqn:Hdump.
  - repeat split; intros; cbn [fst snd ok] in *; try congruence.
    exists meta, lines; repeat split; congruence.
  - repeat split; intros; cbn [fst snd ok] in *; congruence.
Qed.

Lemma DumpTabletData_all_or_nothing_witness :
  let t := Damaged.tool FULL in
  ok (fst (DumpTabletData t "TAB2" Sample.w0)) = false
  /\ snd (DumpTabletData t "TAB2" Sample.w0) = Sample.w0
  /\ ok (fst (DumpTabletData t "TAB1" Sample.w0)) = true
  /\ exists meta lines,
       TabletMetadata_Load (fs_manager_ t) "TAB1" = Ok meta
       /\ Tablet_DebugDump meta = Ok lines
       /\ DumpTabletData t "TAB1" Sample.w0
          = (OK, emit (map (fun l => l ++ endl) lines) [] Sample.w0).
Proof.
  intros t; split; [reflexivity|].
  destruct (DumpTabletData_all_or_nothing t "TAB2" Sample.w0) as (Hfail & _).
  destruct (DumpTabletData_all_or_nothing t "TAB1" Sample.w0)
    as (_ & _ & _ & Hall).
  split; [exact (Hfail eq_refl)|]; split; [reflexivity|].
  exact (Hall eq_refl).
Defined.

(** X6.  At [HEADERS_ONLY] and above, [ListAllTablets] stops at the first
    tablet whose metadata cannot be printed: it returns that failure
    after the entries of the tablets before it and the part of the
    failing tablet's entry already written; the tablets listed after it
    are not printed. *)
Theorem ListAllTablets_stops_at_failure t pre tablet post c msg w :
  ListTabletIds (fs_manager_ t) = Ok (pre ++ tablet :: post)%list ->
  detail_level_ t <> ID_ONLY ->
  Forall (fun x => meta_status t x = OK) pre ->
  meta_status t tablet = Err c msg ->
  ListAllTablets t w
  = (Err c msg,
     emit (flat_map (tablet_full_entry t) pre ++ tablet_full_entry t tablet)
       [] w).
Proof.
  intros Hids Hlevel Hpre Hfail.
  rewrite (ListAllTablets_full t _ w Hids
             (DetailLevel_geb_HEADERS_ONLY_true _ Hlevel)).
  destruct (outcome_first_failure (meta_status t) pre post tablet c msg
              Hpre Hfail) as [-> ->].
  rewrite flat_map_app; simpl; now rewrite app_nil_r.
Qed.

Lemma ListAllTablets_stops_at_failure_witness :
  let t := Damaged.tool HEADERS_ONLY in
  ListTabletIds (fs_manager_ t) = Ok (["TAB1"] ++ "TAB7" :: ["TAB2"])%list
  /\ detail_level_ t <> ID_ONLY
  /\ Forall (fun x => meta_status t x = OK) ["TAB1"]
  /\ meta_status t "TAB7"
     = Err Corruption "Could not get superblock: missing schema"
  /\ ListAllTablets t Sample.w0
     = (Err Corruption "Could not get superblock: missing schema",
        mkWorld [ "Tablet: TAB1" ++ endl;
                  "  Partition: hash buckets: (0)" ++ endl;
                  "  Table name: orders Table id: T1" ++ endl;
                  "  Schema (version=3): Schema [k INT32 NOT NULL]" ++ endl;
                  "Superblock:" ++ endl ++ "tablet_id: TAB" ++ endl;
                  "Tablet: TAB7" ++ endl;
                  "  Partition: hash buckets: (0)" ++ endl;
                  "  Table name: orders Table id: T1" ++ endl;
                  "  Schema (version=3): Schema [k INT32 NOT NULL]" ++ endl ]
          []).
Proof.
  intros t.
  assert (Hlevel : detail_level_ t <> ID_ONLY) by discriminate.
  assert (Hpre : Forall (fun x => meta_status t x = OK) ["TAB1"])
    by (repeat constructor).
  split; [reflexivity|]; split; [exact Hlevel|]; split; [exact Hpre|].
  split; [reflexivity|].
  exact (ListAllTablets_stops_at_failure t ["TAB1"] "TAB7" ["TAB2"] _ _
           Sample.w0 eq_refl Hlevel Hpre eq_refl).
Defined.

(** ** Directories without log files, directories that do not list *)

Lemma filter_none {A} (f : A -> bool) (l : list A) :
  (forall x, In x l -> f x = false) -> filter f l = [].
Proof.
  induction l as [|x l IH]; intros Hnone; simpl; [reflexivity|].
  rewrite (Hnone x) by now left.
  apply IH; intros y Hy; apply Hnone; now right.
Qed.

(** X7.  [ListSegmentsInDir] on a directory that cannot be listed fails
    with the context "Unable to list log segments" before anything is
    written, not even the heading.  On a directory that lists but holds no
    log file name (an empty directory, or stray files only) it writes the
    heading alone and returns OK, at every detail level. *)
Theorem ListSegmentsInDir_without_segments lib t dir w :
  let run := ListSegmentsInDir lib t dir w in
  (forall c msg,
     ListDir (fs_manager_ t) dir = Err c msg ->
     run = (Err c ("Unable to list log segments: " ++ msg), w))
  /\ (forall segments,
        ListDir (fs_manager_ t) dir = Ok segments ->
        (forall s, In s segments -> IsLogFileName lib s = false) ->
        run = (OK, emit ["Segments in " ++ dir ++ ":" ++ endl] [] w)).
Proof.
  intros run; subst run; split.
  - intros c msg Hls; now apply ListSegmentsInDir_unlistable.
  - intros segments Hls Hnone; unfold ListSegmentsInDir; rewrite Hls.
    unfold lift_prepend, lift, bind at 1; simpl.
    unfold bind; rewrite print_emit, ListSegmentsInDir_loop_filter.
    now rewrite filter_none.
Qed.

Lemma ListSegmentsInDir_without_segments_witness :
  let t := Damaged.tool FULL in
  ListDir (fs_manager_ t) "/wals/T2" = Err IOError "Permission denied"
  /\ ListSegmentsInDir Sample.lib t "/wals/T2" Sample.w0
     = (Err IOError "Unable to list log segments: Permission denied", Sample.w0)
  /\ ListDir (fs_manager_ t) "/wals/T1/TAB5" = Ok ["README"; "core.1234"]
  /\ ListSegmentsInDir Sample.lib t "/wals/T1/TAB5" Sample.w0
     = (OK, emit ["Segments in /wals/T1/TAB5:" ++ endl] [] Sample.w0).
Proof.
  intros t.
  destruct (ListSegmentsInDir_without_segments Sample.lib t "/wals/T2"
              Sample.w0) as (Hfail & _).
  destruct (ListSegmentsInDir_without_segments Sample.lib t "/wals/T1/TAB5"
              Sample.w0) as (_ & Hnone).
  split; [reflexivity|]; split; [exact (Hfail _ _ eq_refl)|].
  split; [reflexivity|].
  apply (Hnone ["README"; "core.1234"] eq_refl).
  intros s [<-|[<-|[]]]; reflexivity.
Defined.

(** ** What the walk reads *)

Lemma bind_ext {A B} (m1 m2 : M A) (k1 k2 : A -> M B) (w : World) :
  m1 w = m2 w -> (forall a w', k1 a w' = k2 a w') ->
  bind m1 k1 w = bind m2 k2 w.
Proof.
  unfold bind; intros -> Hk; destruct (m2 w) as [[a|c msg] w']; auto.
Qed.

Lemma ListSegmentsInDir_with_env lib t e dir w :
  detail_level_ t = ID_ONLY ->
  ListSegmentsInDir lib (with_env t e) dir w = ListSegmentsInDir lib t dir w.
Proof.
  intros Hid; unfold ListSegmentsInDir.
  apply bind_ext; [reflexivity|]; intros segments w1.
  apply bind_ext; [reflexivity|]; intros _ w2.
  apply for_each_ext; intros segment w3 _.
  unfold ListSegmentsInDir_segment, ListSegmentsInDir_entry.
  cbn [with_env detail_level_]; rewrite Hid; reflexivity.
Qed.

Lemma ListAllLogSegments_child_with_env lib t e table_wal_dir child w :
  detail_level_ t = ID_ONLY ->
  ListAllLogSegments_child lib (with_env t e) table_wal_dir child w
  = ListAllLogSegments_child lib t table_wal_dir child w.
Proof.
  intros Hid; unfold ListAllLogSegments_child.
  destruct (has_dot_prefix child); [reflexivity|].
  apply bind_ext; [reflexivity|]; intros _ w1.
  now apply ListSegmentsInDir_with_env.
Qed.

Lemma ListAllLogSegments_root_with_env lib t e wals_dir w :
  detail_level_ t = ID_ONLY ->
  ListAllLogSegments_root lib (with_env t e) wals_dir w
  = ListAllLogSegments_root lib t wals_dir w.
Proof.
  intros Hid; unfold ListAllLogSegments_root; cbn [with_env fs_manager_ Exists].
  destruct (negb (Exists (fs_manager_ t) wals_dir)); [reflexivity|].
  apply bind_ext; [reflexivity|]; intros _ w1.
  apply bind_ext; [reflexivity|]; intros tables w2.
  unfold ListAllLogSegments_tables.
  apply for_each_ext; intros table w3 _.
  unfold ListAllLogSegments_table.
  apply bind_ext; [reflexivity|]; intros children w4.
  apply for_each_ext; intros child w5 _.
  now apply ListAllLogSegments_child_with_env.
Qed.

(** X8.  At [ID_ONLY] no segment file is ever opened: the listing of a
    directory, the walk of all the WAL roots and the listing of one
    tablet's segments are the same whatever opening the segments would
    give. *)
Theorem ID_ONLY_never_opens_segments lib t e :
  detail_level_ t = ID_ONLY ->
  (forall dir w,
     ListSegmentsInDir lib (with_env t e) dir w = ListSegmentsInDir lib t dir w)
  /\ (forall w,
        ListAllLogSegments lib (with_env t e) w = ListAllLogSegments lib t w)
  /\ (forall tablet_id w,
        ListLogSegmentsForTablet lib (with_env t e) tablet_id w
        = ListLogSegmentsForTablet lib t tablet_id w).
Proof.
  intros Hid; split; [|split].
  - intros; now apply ListSegmentsInDir_with_env.
  - intros w; unfold ListAllLogSegments.
    apply for_each_ext; intros root w1 _.
    now apply ListAllLogSegments_root_with_env.
  - intros tablet_id w; unfold ListLogSegmentsForTablet.
    apply bind_ext; [reflexivity|]; intros meta w1.
    cbn [with_env fs_manager_ Exists GetTabletWalRecoveryDir].
    destruct (negb (Exists (fs_manager_ t) (wal_dir meta))); [reflexivity|].
    apply bind_ext; [reflexivity|]; intros _ w2.
    apply bind_ext; [now apply ListSegmentsInDir_with_env|]; intros _ w3.
    destruct (Exists (fs_manager_ t) _); [|reflexivity].
    apply bind_ext; [reflexivity|]; intros _ w4.
    now apply ListSegmentsInDir_with_env.
Qed.

Lemma ID_ONLY_never_opens_segments_witness :
  let t := Sample.tool ID_ONLY ["/wals"] in
  detail_level_ t = ID_ONLY
  /\ ListAllLogSegments Sample.lib (with_env t Damaged.sealed_env) Sample.w0
     = ListAllLogSegments Sample.lib t Sample.w0
  /\ fst (ListAllLogSegments Sample.lib
            (with_env (Sample.tool HEADERS_ONLY ["/wals"]) Damaged.sealed_env)
            Sample.w0)
     <> fst (ListAllLogSegments Sample.lib (Sample.tool HEADERS_ONLY ["/wals"])
               Sample.w0).
Proof.
  intros t; split; [reflexivity|].
  destruct (ID_ONLY_never_opens_segments Sample.lib t Damaged.sealed_env
              eq_refl) as (_ & Hwalk & _).
  split; [exact (Hwalk Sample.w0) | discriminate].
Defined.

(** ** Where the walk of a root stops *)

Lemma ListAllLogSegments_root_listed lib t wals_dir tables w :
  Exists (fs_manager_ t) wals_dir = true ->
  ListDir (fs_manager_ t) wals_dir = Ok tables ->
  ListAllLogSegments_root lib t wals_dir w
  = ListAllLogSegments_tables lib t wals_dir tables
      (emit ["Root log directory: " ++ wals_dir ++ endl] [] w).
Proof.
  intros Hexists Hls; unfold ListAllLogSegments_root.
  rewrite Hexists, Hls; simpl.
  unfold bind at 1; rewrite print_emit; reflexivity.
Qed.

Lemma ListAllLogSegments_table_unlistable lib t wals_dir table c msg w :
  ListDir (fs_manager_ t) (JoinPathSegments lib wals_dir table) = Err c msg ->
  ListAllLogSegments_table lib t wals_dir table w
  = (Err c ("Could not list log directories: " ++ msg), w).
Proof. intros Hls; unfold ListAllLogSegments_table; now rewrite Hls. Qed.

(** X9.  The walk of a WAL root that exists stops at the first directory
    it cannot list.  If the root itself does not list, the call fails with
    the context "Could not list table directories", the line naming the
    root being already written.  If a table directory whose name does not
    begin with a dot does not list, the call fails with the context "Could
    not list log directories", after what the tables before it produced
    and with nothing written for the failing table; the tables after it
    are not walked. *)
Theorem ListAllLogSegments_root_stops_at_unlistable lib t wals_dir w :
  Exists (fs_manager_ t) wals_dir = true ->
  let heading := "Root log directory: " ++ wals_dir ++ endl in
  let run := ListAllLogSegments_root lib t wals_dir w in
  (forall c msg,
     ListDir (fs_manager_ t) wals_dir = Err c msg ->
     run = (Err c ("Could not list table directories: " ++ msg),
            emit [heading] [] w))
  /\ (forall pre table post c msg w1,
        ListDir (fs_manager_ t) wals_dir = Ok (pre ++ table :: post)%list ->
        has_dot_prefix table = false ->
        ListAllLogSegments_tables lib t wals_dir pre (emit [heading] [] w)
        = (OK, w1) ->
        ListDir (fs_manager_ t) (JoinPathSegments lib wals_dir table)
        = Err c msg ->
        run = (Err c ("Could not list log directories: " ++ msg), w1)).
Proof.
  intros Hexists heading run; subst run; split.
  - intros c msg Hls; unfold ListAllLogSegments_root.
    rewrite Hexists, Hls; simpl.
    unfold bind; now rewrite print_emit.
  - intros pre table post c msg w1 Hls Hvisible Hpre Hfail.
    rewrite (ListAllLogSegments_root_listed lib t wals_dir _ w Hexists Hls).
    unfold ListAllLogSegments_tables, remove_if in *.
    rewrite filter_app; simpl; rewrite Hvisible; simpl.
    apply (for_each_stops _ _ _ _ _ w1 w1 _ _ Hpre).
    now apply ListAllLogSegments_table_unlistable.
Qed.

Lemma ListAllLogSegments_root_stops_at_unlistable_witness :
  let t := Damaged.tool ID_ONLY in
  Exists (fs_manager_ t) "/locked" = true
  /\ ListAllLogSegments_root Sample.lib t "/locked" Sample.w0
     = (Err IOError "Could not list table directories: Permission denied",
        emit ["Root log directory: /locked" ++ endl] [] Sample.w0)
  /\ Exists (fs_manager_ t) "/wals2" = true
  /\ ListDir (fs_manager_ t) "/wals2" = Ok ([".snapshot"] ++ "T2" :: ["T1"])%list
  /\ ListAllLogSegments_root Sample.lib t "/wals2" Sample.w0
     = (Err IOError "Could not list log directories: Permission denied",
        emit ["Root log directory: /wals2" ++ endl] [] Sample.w0).
Proof.
  intros t; split; [reflexivity|].
  destruct (ListAllLogSegments_root_stops_at_unlistable Sample.lib t "/locked"
              Sample.w0 eq_refl) as (Hroot & _).
  destruct (ListAllLogSegments_root_stops_at_unlistable Sample.lib t "/wals2"
              Sample.w0 eq_refl) as (_ & Htable).
  split; [exact (Hroot _ _ eq_refl)|].
  split; [reflexivity|]; split; [reflexivity|].
  exact (Htable [".snapshot"] "T2" ["T1"] _ _ _ eq_refl eq_refl eq_refl
           eq_refl).
Defined.

Lemma ListAllLogSegments_table_listed lib t wals_dir table children w :
  ListDir (fs_manager_ t) (JoinPathSegments lib wals_dir table) = Ok children ->
  ListAllLogSegments_table lib t wals_dir table w
  = for_each (ListAllLogSegments_child lib t
                (JoinPathSegments lib wals_dir table)) children w.
Proof. intros Hls; unfold ListAllLogSegments_table; now rewrite Hls. Qed.

(** X10.  The walk does not test that an entry of a table directory is a
    directory.  An entry whose name does not begin with a dot and that
    cannot be listed (a stray regular file, say) is announced like a
    directory, and then ends the walk of the table with the context
    "Unable to list log segments"; the entries after it are not
    visited. *)
Theorem ListAllLogSegments_table_stops_at_unlistable_child
    lib t wals_dir table pre child post c msg w w1 :
  let table_wal_dir := JoinPathSegments lib wals_dir table in
  let path := JoinPathSegments lib table_wal_dir child in
  let label := if HasSuffixString child (kWalsRecoveryDirSuffix lib)
               then "Log recovery dir found: " else "Log directory: " in
  ListDir (fs_manager_ t) table_wal_dir = Ok (pre ++ child :: post)%list ->
  has_dot_prefix child = false ->
  for_each (ListAllLogSegments_child lib t table_wal_dir) pre w = (OK, w1) ->
  ListDir (fs_manager_ t) path = Err c msg ->
  ListAllLogSegments_table lib t wals_dir table w
  = (Err c ("Unable to list log segments: " ++ msg),
     emit [label ++ path ++ endl] [] w1).
Proof.
  intros table_wal_dir path label Hls Hvisible Hpre Hfail.
  rewrite (ListAllLogSegments_table_listed lib t wals_dir table _ w Hls).
  fold table_wal_dir.
  apply (for_each_stops _ _ _ _ _ w1 _ _ _ Hpre).
  rewrite (ListAllLogSegments_child_visible lib t table_wal_dir child w1
             Hvisible).
  now apply ListSegmentsInDir_unlistable.
Qed.

Lemma ListAllLogSegments_table_stops_at_unlistable_child_witness :
  let t := Damaged.tool ID_ONLY in
  let w1 :=
    emit [ "Log directory: /wals/T1/TAB1" ++ endl;
           "Segments in /wals/T1/TAB1:" ++ endl;
           tab ++ "wal-000000001" ++ endl;
           tab ++ "wal-000000002" ++ endl ] [] Sample.w0 in
  ListDir (fs_manager_ t) "/wals/T1" = Ok (["TAB1"] ++ "stray.txt" :: ["TAB9"])%list
  /\ has_dot_prefix "stray.txt" = false
  /\ for_each (ListAllLogSegments_child Sample.lib t "/wals/T1") ["TAB1"]
       Sample.w0 = (OK, w1)
  /\ ListDir (fs_manager_ t) "/wals/T1/stray.txt" = Err IOError "Not a directory"
  /\ ListAllLogSegments_table Sample.lib t "/wals" "T1" Sample.w0
     = (Err IOError "Unable to list log segments: Not a directory",
        emit ["Log directory: /wals/T1/stray.txt" ++ endl] [] w1).
Proof.
  intros t w1; repeat (split; [reflexivity|]).
  exact (ListAllLogSegments_table_stops_at_unlistable_child Sample.lib t
           "/wals" "T1" ["TAB1"] "stray.txt" ["TAB9"] _ _ Sample.w0 w1
           eq_refl eq_refl eq_refl eq_refl).
Defined.

Lemma remove_if_all (p : string -> bool) (l : list string) :
  Forall (fun x => p x = true) l -> remove_if p l = [].
Proof.
  intros Hall; apply filter_none; intros x Hx.
  rewrite Forall_forall in Hall; now rewrite (Hall x Hx).
Qed.

Lemma ListAllLogSegments_children_hidden lib t table_wal_dir children w :
  Forall (fun x => has_dot_prefix x = true) children ->
  for_each (ListAllLogSegments_child lib t table_wal_dir) children w
  = (OK,
     emit []
       (map (fun child =>
               VLOG 1 ("Ignoring hidden file in root log directory " ++ child))
          children) w).
Proof.
  intros Hall; revert w; induction Hall as [|child rest Hchild _ IH]; intros w.
  - simpl; unfold ret; now rewrite emit_nil.
  - simpl for_each.
    rewrite (bind_Ok _ _ _ _ _
               (ListAllLogSegments_child_hidden lib t table_wal_dir child w
                  Hchild)).
    now rewrite IH, emit_emit.
Qed.

(** X11.  Directories that hold nothing but names beginning with a dot,
    or nothing at all.  For such a WAL root the walk writes the line
    naming the root and nothing else, and lists no table directory.  For
    such a table directory it writes nothing on standard output, scans
    nothing, and hands one verbose-log line per entry to glog.  Both
    return OK. *)
Theorem ListAllLogSegments_only_hidden lib t wals_dir :
  (forall tables w,
     Exists (fs_manager_ t) wals_dir = true ->
     ListDir (fs_manager_ t) wals_dir = Ok tables ->
     Forall (fun x => has_dot_prefix x = true) tables ->
     ListAllLogSegments_root lib t wals_dir w
     = (OK, emit ["Root log directory: " ++ wals_dir ++ endl] [] w))
  /\ (forall table children w,
        ListDir (fs_manager_ t) (JoinPathSegments lib wals_dir table)
        = Ok children ->
        Forall (fun x => has_dot_prefix x = true) children ->
        ListAllLogSegments_table lib t wals_dir table w
        = (OK,
           emit []
             (map (fun child =>
                     VLOG 1 ("Ignoring hidden file in root log directory "
                             ++ child)) children) w)).
Proof.
  split.
  - intros tables w Hexists Hls Hall.
    rewrite (ListAllLogSegments_root_listed lib t wals_dir tables w Hexists Hls).
    unfold ListAllLogSegments_tables; now rewrite remove_if_all.
  - intros table children w Hls Hall.
    rewrite (ListAllLogSegments_table_listed lib t wals_dir table _ w Hls).
    now apply ListAllLogSegments_children_hidden.
Qed.

Lemma ListAllLogSegments_only_hidden_witness :
  let t := Damaged.tool FULL in
  Exists (fs_manager_ t) "/empty" = true
  /\ ListDir (fs_manager_ t) "/empty" = Ok [".lost+found"]
  /\ ListAllLogSegments_root Sample.lib t "/empty" Sample.w0
     = (OK, emit ["Root log directory: /empty" ++ endl] [] Sample.w0)
  /\ ListDir (fs_manager_ t) "/wals/T3" = Ok [".tmp"; ".old"]
  /\ ListAllLogSegments_table Sample.lib t "/wals" "T3" Sample.w0
     = (OK,
        emit [] [ VLOG 1 "Ignoring hidden file in root log directory .tmp";
                  VLOG 1 "Ignoring hidden file in root log directory .old" ]
          Sample.w0).
Proof.
  intros t.
  destruct (ListAllLogSegments_only_hidden Sample.lib t "/empty")
    as (Hroot & _).
  destruct (ListAllLogSegments_only_hidden Sample.lib t "/wals")
    as (_ & Htable).
  split; [reflexivity|]; split; [reflexivity|].
  split; [apply (Hroot _ _ eq_refl eq_refl); repeat constructor|].
  split; [reflexivity|].
  apply (Htable "T3" _ _ eq_refl); repeat constructor.
Defined.

(** ** Runs that succeed *)

Lemma outcome_all_OK {A} (st : A -> Status) (l : list A) :
  (forall x, In x l -> st x = OK) -> outcome st l = OK.
Proof.
  induction l as [|x l IH]; intros Hall; simpl; [reflexivity|].
  rewrite (Hall x) by now left.
  apply IH; intros y Hy; apply Hall; now right.
Qed.

Lemma header_status_tolerated t path :
  (let r := ReadableLogSegment_Open (env (fs_manager_ t)) path in
   ok r || IsUninitialized r || IsCorruption r = true) ->
  header_status t path = OK.
Proof.
  unfold header_status.
  destruct (ReadableLogSegment_Open (env (fs_manager_ t)) path) as [seg|[] msg];
    simpl; intros H; try reflexivity; discriminate H.
Qed.

Lemma ListSegmentsInDir_tolerant lib t dir segments w :
  ListDir (fs_manager_ t) dir = Ok segments ->
  detail_level_ t <> ID_ONLY ->
  (forall s, In s segments -> IsLogFileName lib s = true ->
     let r := ReadableLogSegment_Open (env (fs_manager_ t))
                (JoinPathSegments lib dir s) in
     ok r || IsUninitialized r || IsCorruption r = true) ->
  let names := filter (IsLogFileName lib) segments in
  ListSegmentsInDir lib t dir w
  = (OK,
     emit (("Segments in " ++ dir ++ ":" ++ endl)
             :: flat_map (segment_full_entry lib t dir) names)
          (flat_map (fun s => header_diag lib t (JoinPathSegments lib dir s))
             names) w).
Proof.
  intros Hls Hlevel Hopen names.
  rewrite (ListSegmentsInDir_full lib t dir segments w Hls
             (DetailLevel_geb_HEADERS_ONLY_true _ Hlevel)).
  fold names.
  assert (Hok : outcome (segment_status lib t dir) names = OK).
  { apply outcome_all_OK; intros s Hs; subst names.
    apply filter_In in Hs; destruct Hs as [Hin Hname].
    apply header_status_tolerated; now apply Hopen. }
  now rewrite Hok, outcome_OK_processed, firstn_all.
Qed.

(** X12.  Segments that are not initialized or corrupt never end a
    listing.  At [HEADERS_ONLY] and above, when every log file of a
    directory opens, or fails to open as Uninitialized or Corruption,
    [ListSegmentsInDir] returns OK, every log file name is listed in
    order, and glog receives one LOG(ERROR) line per segment that did not
    open. *)
Theorem ListSegmentsInDir_tolerates_bad_segments lib t dir segments w :
  ListDir (fs_manager_ t) dir = Ok segments ->
  detail_level_ t <> ID_ONLY ->
  (forall s, In s segments -> IsLogFileName lib s = true ->
     let r := ReadableLogSegment_Open (env (fs_manager_ t))
                (JoinPathSegments lib dir s) in
     ok r || IsUninitialized r || IsCorruption r = true) ->
  let names := filter (IsLogFileName lib) segments in
  ListSegmentsInDir lib t dir w
  = (OK,
     emit (("Segments in " ++ dir ++ ":" ++ endl)
             :: flat_map (segment_full_entry lib t dir) names)
          (flat_map (fun s => header_diag lib t (JoinPathSegments lib dir s))
             names) w).
Proof.
  intros Hls Hlevel Hopen names.
  assert (Hok : outcome (segment_status lib t dir) names = OK).
  { apply outcome_all_OK; intros s Hs.
    apply filter_In in Hs; destruct Hs as [Hin Hname].
    apply header_status_tolerated; now apply Hopen. }
  rewrite (ListSegmentsInDir_full lib t dir segments w Hls
             (DetailLevel_geb_HEADERS_ONLY_true _ Hlevel)).
  fold names; rewrite Hok, (outcome_OK_processed _ _ Hok), firstn_all.
  reflexivity.
Qed.

Lemma ListSegmentsInDir_tolerates_bad_segments_witness :
  let t := Healthy.tool HEADERS_ONLY in
  let dir := "/wals/T1/TAB1" in
  let segments := ["wal-000000001"; "wal-000000002"; "wal-000000003"] in
  ListDir (fs_manager_ t) dir = Ok segments
  /\ detail_level_ t <> ID_ONLY
  /\ ListSegmentsInDir Sample.lib t dir Sample.w0
     = (OK,
        mkWorld
          [ "Segments in /wals/T1/TAB1:" ++ endl;
            "Segment: wal-000000001" ++ endl;
            "  Size: 1K" ++ endl;
            "  Header: " ++ endl;
            "  major_version: 1" ++ endl ++ "  minor_version: 0" ++ endl
              ++ "  ";
            "Segment: wal-000000002" ++ endl;
            "Segment: wal-000000003" ++ endl ]
          [ LOG_ERROR ("/wals/T1/TAB1/wal-000000002 is corrupt: "
                       ++ "Corruption: invalid magic number");
            LOG_ERROR ("/wals/T1/TAB1/wal-000000003 is not initialized: "
                       ++ "Uninitialized: log segment header not yet written")
          ]).
Proof.
  intros t dir segments.
  assert (Hlevel : detail_level_ t <> ID_ONLY) by discriminate.
  split; [reflexivity|]; split; [exact Hlevel|].
  apply (ListSegmentsInDir_tolerates_bad_segments Sample.lib t dir segments
           Sample.w0 eq_refl Hlevel).
  intros s [<-|[<-|[<-|[]]]] _; reflexivity.
Defined.

(** ** The header reader, in full *)

(** C1.  [PrintLogSegmentHeader] on the four outcomes of opening the
    segment.  Uninitialized and Corruption: one LOG(ERROR) line, nothing on
    standard output, OK, so that whatever follows the call runs.  Any other
    failure: returned with the context naming the path, nothing written,
    and whatever follows the call does not run.  Success: OK, and standard
    output receives the size, the line "Header: " and the debug string of
    the header, every character of it, with the indentation in front and
    after each of its newlines. *)
Theorem PrintLogSegmentHeader_outcomes lib t path indent (rest : M unit) w :
  let call := PrintLogSegmentHeader lib t path indent in
  let spaces := string_of_spaces indent in
  match ReadableLogSegment_Open (env (fs_manager_ t)) path with
  | Ok segment =>
      let w' :=
        emit [ spaces ++ "Size: "
                 ++ ToStringWithoutRounding lib (file_size segment) ++ endl;
               spaces ++ "Header: " ++ endl;
               spaces ++ indented indent
                           (LogSegmentHeaderPB_DebugString (header segment)) ]
          [] w in
      call w = (OK, w') /\ (call ;; rest) w = rest w'
  | Err Uninitialized msg =>
      let w' := emit [] [LOG_ERROR (path ++ " is not initialized: "
                                    ++ Status_ToString lib Uninitialized msg)]
                  w in
      call w = (OK, w') /\ (call ;; rest) w = rest w'
  | Err Corruption msg =>
      let w' := emit [] [LOG_ERROR (path ++ " is corrupt: "
                                    ++ Status_ToString lib Corruption msg)]
                  w in
      call w = (OK, w') /\ (call ;; rest) w = rest w'
  | Err c msg =>
      let failure :=
        Err c ("Unexpected error reading log segment " ++ path ++ ": " ++ msg) in
      call w = (failure, w) /\ (call ;; rest) w = (failure, w)
  end.
Proof.
  intros call spaces.
  pose proof (PrintLogSegmentHeader_writes lib t path indent w) as Hcall.
  unfold header_status, header_out, header_diag, header_text in Hcall.
  destruct (ReadableLogSegment_Open (env (fs_manager_ t)) path)
    as [segment|c msg]; [rewrite IndentString_indented in Hcall|destruct c];
    cbn [Indent ToString] in *;
    rewrite ?emit_nil in Hcall;
    (split; [exact Hcall|]);
    unfold bind; fold call; subst call; rewrite Hcall; reflexivity.
Qed.

Lemma PrintLogSegmentHeader_outcomes_witness :
  let t := Sample.tool HEADERS_ONLY ["/wals"] in
  let call path := PrintLogSegmentHeader Sample.lib t path 2 Sample.w0 in
  call "/wals/T1/TAB1/wal-000000001"
  = (OK, mkWorld [ "  Size: 1K" ++ endl;
                   "  Header: " ++ endl;
                   "  major_version: 1" ++ endl ++ "  minor_version: 0" ++ endl
                     ++ "  " ] [])
  /\ call "/wals/T1/TAB1/wal-000000002"
     = (OK, mkWorld []
              [ LOG_ERROR ("/wals/T1/TAB1/wal-000000002 is not initialized: "
                           ++ "Uninitialized: log segment header not yet written")
              ])
  /\ call "/wals/T1/TAB1.recovery/wal-000000001"
     = (OK, mkWorld []
              [ LOG_ERROR ("/wals/T1/TAB1.recovery/wal-000000001 is corrupt: "
                           ++ "Corruption: invalid magic number") ])
  /\ call "/wals/T1/TAB2/wal-000000001"
     = (Err IOError ("Unexpected error reading log segment "
                     ++ "/wals/T1/TAB2/wal-000000001: Permission denied"),
        Sample.w0).
Proof.
  intros t call; subst call; cbv beta.
  split; [|split; [|split]].
  - exact (proj1 (PrintLogSegmentHeader_outcomes Sample.lib t
                    "/wals/T1/TAB1/wal-000000001" 2 (ret tt) Sample.w0)).
  - exact (proj1 (PrintLogSegmentHeader_outcomes Sample.lib t
                    "/wals/T1/TAB1/wal-000000002" 2 (ret tt) Sample.w0)).
  - exact (proj1 (PrintLogSegmentHeader_outcomes Sample.lib t
                    "/wals/T1/TAB1.recovery/wal-000000001" 2 (ret tt)
                    Sample.w0)).
  - exact (proj1 (PrintLogSegmentHeader_outcomes Sample.lib t
                    "/wals/T1/TAB2/wal-000000001" 2 (ret tt) Sample.w0)).
Defined.

(** ** The walk over a file system without hidden names *)

Lemma same_status_and_cout_writes {A} (m : M A) :
  writes_only m -> same_status_and_cout m m.
Proof. intros Hm w1 w2 Hw; now apply writes_only_cout. Qed.

Lemma same_status_and_cout_eq {A} (m1 m2 : M A) :
  writes_only m1 -> (forall w, m2 w = m1 w) -> same_status_and_cout m1 m2.
Proof.
  intros Hm Heq w1 w2 Hw; rewrite Heq; now apply writes_only_cout.
Qed.

Lemma same_status_and_cout_bind {A B} (m1 m2 : M A) (k1 k2 : A -> M B) :
  same_status_and_cout m1 m2 ->
  (forall a, same_status_and_cout (k1 a) (k2 a)) ->
  same_status_and_cout (bind m1 k1) (bind m2 k2).
Proof.
  intros Hm Hk w1 w2 Hw; destruct (Hm w1 w2 Hw) as [Hst Hout].
  unfold bind.
  destruct (m1 w1) as [[a1|c1 msg1] v1], (m2 w2) as [[a2|c2 msg2] v2];
    simpl in Hst, Hout; try discriminate Hst.
  - injection Hst as ->; now apply Hk.
  - injection Hst as -> ->; split; [reflexivity | exact Hout].
Qed.

(** A loop over a listing against the same loop over the listing without
    the names on which the body writes nothing to standard output. *)
Lemma same_status_and_cout_for_each (f g : string -> M unit)
    (drop : string -> bool) (l : list string) :
  (forall x, same_status_and_cout (f x) (g x)) ->
  (forall x, drop x = true -> same_status_and_cout (f x) (ret tt)) ->
  same_status_and_cout (for_each f l) (for_each g (remove_if drop l)).
Proof.
  intros Hfg Hdrop; induction l as [|x l IH]; intros w1 w2 Hw.
  - split; [reflexivity | exact Hw].
  - unfold remove_if; simpl filter; fold (remove_if drop l).
    destruct (drop x) eqn:Hx; simpl negb; cbv iota.
    + change (for_each f (x :: l)) with (f x ;; for_each f l); unfold bind.
      destruct (Hdrop x Hx w1 w2 Hw) as [Hst Hout]; simpl in Hst, Hout.
      destruct (f x w1) as [[[]|c msg] v1]; simpl in Hst, Hout;
        [|discriminate Hst].
      now apply IH.
    + simpl for_each.
      apply same_status_and_cout_bind; [apply Hfg | intros _; exact IH | exact Hw].
Qed.

Lemma remove_if_idempotent (drop : string -> bool) (l : list string) :
  remove_if drop (remove_if drop l) = remove_if drop l.
Proof.
  unfold remove_if; induction l as [|x l IH]; simpl; [reflexivity|].
  destruct (drop x) eqn:Hx; simpl; [exact IH|].
  now rewrite Hx, IH.
Qed.

Section WithoutHidden.

Variable lib : Externals.
Variable t : FsTool.
Hypothesis log_files_not_hidden :
  forall s, has_dot_prefix s = true -> IsLogFileName lib s = false.

(** The scan of a directory does not see the hidden names of its
    listing. *)
Lemma ListSegmentsInDir_hide_dot_entries dir w :
  ListSegmentsInDir lib (hide_dot_entries t) dir w
  = ListSegmentsInDir lib t dir w.
Proof.
  unfold ListSegmentsInDir; cbn [hide_dot_entries fs_manager_ ListDir].
  destruct (ListDir (fs_manager_ t) dir) as [segments|c msg]; [|reflexivity].
  unfold lift_prepend, lift, bind at 1 3; simpl CloneAndPrepend; cbv iota.
  unfold bind; destruct (print _ w) as [[[]|c msg] w1]; [|reflexivity].
  symmetry.
  apply (for_each_filter (ListSegmentsInDir_segment lib t dir)
           (fun x => negb (has_dot_prefix x))).
  intros x w2 Hx; apply ListSegmentsInDir_segment_skip.
  apply log_files_not_hidden; now destruct (has_dot_prefix x).
Qed.

Lemma ListAllLogSegments_child_hide_dot_entries table_wal_dir child :
  same_status_and_cout
    (ListAllLogSegments_child lib t table_wal_dir child)
    (ListAllLogSegments_child lib (hide_dot_entries t) table_wal_dir child).
Proof.
  apply same_status_and_cout_eq;
    [apply writes_only_ListAllLogSegments_child|].
  intros w; unfold ListAllLogSegments_child.
  destruct (has_dot_prefix child); [reflexivity|].
  apply bind_ext; [reflexivity|]; intros _ w1.
  apply ListSegmentsInDir_hide_dot_entries.
Qed.

Lemma ListAllLogSegments_child_hidden_silent table_wal_dir child :
  has_dot_prefix child = true ->
  same_status_and_cout (ListAllLogSegments_child lib t table_wal_dir child)
    (ret tt).
Proof.
  intros Hdot w1 w2 Hw.
  rewrite (ListAllLogSegments_child_hidden lib t table_wal_dir child w1 Hdot).
  split; [reflexivity|]; unfold emit, ret; simpl.
  now rewrite app_nil_r.
Qed.

Lemma ListAllLogSegments_table_hide_dot_entries wals_dir table :
  same_status_and_cout
    (ListAllLogSegments_table lib t wals_dir table)
    (ListAllLogSegments_table lib (hide_dot_entries t) wals_dir table).
Proof.
  unfold ListAllLogSegments_table; cbn [hide_dot_entries fs_manager_ ListDir].
  destruct (ListDir (fs_manager_ t) (JoinPathSegments lib wals_dir table))
    as [children|c msg]; intros w1 w2 Hw.
  - unfold bind, lift_prepend, lift; simpl CloneAndPrepend; cbv iota.
    apply same_status_and_cout_for_each;
      [ apply ListAllLogSegments_child_hide_dot_entries
      | apply ListAllLogSegments_child_hidden_silent
      | exact Hw ].
  - split; [reflexivity | exact Hw].
Qed.

Lemma same_status_and_cout_loop (f g : string -> M unit) (l : list string) :
  (forall x, same_status_and_cout (f x) (g x)) ->
  same_status_and_cout (for_each f l) (for_each g l).
Proof.
  intros Hfg; induction l as [|x l IH]; intros w1 w2 Hw.
  - split; [reflexivity | exact Hw].
  - simpl for_each.
    apply same_status_and_cout_bind; [apply Hfg | intros _; exact IH | exact Hw].
Qed.

Lemma ListAllLogSegments_root_hide_dot_entries wals_dir :
  same_status_and_cout
    (ListAllLogSegments_root lib t wals_dir)
    (ListAllLogSegments_root lib (hide_dot_entries t) wals_dir).
Proof.
  unfold ListAllLogSegments_root;
    cbn [hide_dot_entries fs_manager_ ListDir Exists].
  destruct (negb (Exists (fs_manager_ t) wals_dir)).
  - intros w1 w2 Hw; split; [reflexivity | exact Hw].
  - apply same_status_and_cout_bind;
      [apply same_status_and_cout_writes, writes_only_print|]; intros _.
    destruct (ListDir (fs_manager_ t) wals_dir) as [tables|c msg];
      intros w1 w2 Hw.
    + unfold bind, lift_prepend, lift; simpl CloneAndPrepend; cbv iota.
      unfold ListAllLogSegments_tables; rewrite remove_if_idempotent.
      apply same_status_and_cout_loop;
        [apply ListAllLogSegments_table_hide_dot_entries | exact Hw].
    + split; [reflexivity | exact Hw].
Qed.

Lemma ListAllLogSegments_hide_dot_entries :
  same_status_and_cout (ListAllLogSegments lib t)
    (ListAllLogSegments lib (hide_dot_entries t)).
Proof.
  unfold ListAllLogSegments; cbn [hide_dot_entries fs_manager_ GetWalRootDirs].
  apply same_status_and_cout_loop.
  apply ListAllLogSegments_root_hide_dot_entries.
Qed.

End WithoutHidden.

(** C4.  A name that begins with a dot is never a table, tablet or
    recovery directory for [ListAllLogSegments].  The whole walk returns
    the same status and writes the same standard output as on the file
    system whose listings have lost every such name: no hidden name is
    announced, and nothing is scanned or fails because of one.  (The walk
    lists the segments of a directory through [IsLogFileName], which is
    outside the sources; the comparison takes it to reject the names that
    begin with a dot.)  Level by level: such a name is erased from the
    listing of a root before the tables are walked, and the loop body on
    such an entry of a table directory, whatever its suffix, only hands a
    verbose line to glog, so that the walk of the other entries goes on as
    if the name were not listed. *)
Theorem ListAllLogSegments_ignores_hidden lib t :
  ((forall s, has_dot_prefix s = true -> IsLogFileName lib s = false) ->
   forall w,
     fst (ListAllLogSegments lib t w)
     = fst (ListAllLogSegments lib (hide_dot_entries t) w)
     /\ cout (snd (ListAllLogSegments lib t w))
        = cout (snd (ListAllLogSegments lib (hide_dot_entries t) w)))
  /\ (forall h,
        has_dot_prefix h = true ->
        (forall wals_dir pre post w,
           ListAllLogSegments_tables lib t wals_dir (pre ++ h :: post) w
           = ListAllLogSegments_tables lib t wals_dir (pre ++ post) w)
        /\ (forall table_wal_dir w,
              ListAllLogSegments_child lib t table_wal_dir h w
              = (OK, emit [] [VLOG 1 ("Ignoring hidden file in root log "
                                      ++ "directory " ++ h)] w))
        /\ (forall table_wal_dir pre post w,
              let walk :=
                for_each (ListAllLogSegments_child lib t table_wal_dir) in
              fst (walk (pre ++ h :: post)%list w)
              = fst (walk (pre ++ post)%list w)
              /\ cout (snd (walk (pre ++ h :: post)%list w))
                 = cout (snd (walk (pre ++ post)%list w)))).
Proof.
  split.
  { intros Hlog w.
    now apply (ListAllLogSegments_hide_dot_entries lib t Hlog w w). }
  intros h Hh; split; [|split].
  - intros wals_dir pre post w; unfold ListAllLogSegments_tables.
    now rewrite remove_if_hidden.
  - intros; now apply ListAllLogSegments_child_hidden.
  - intros twd pre post w walk; subst walk.
    rewrite !for_each_app.
    destruct (for_each (ListAllLogSegments_child lib t twd) pre w)
      as [[[]|c msg] w1] eqn:Hpre.
    2: { rewrite !(bind_Err _ _ _ _ _ _ Hpre); split; reflexivity. }
    rewrite !(bind_Ok _ _ _ _ _ Hpre); simpl for_each.
    rewrite (bind_Ok _ _ _ _ _
               (ListAllLogSegments_child_hidden lib t twd h w1 Hh)).
    apply writes_only_cout.
    + apply writes_only_for_each; intros x.
      apply writes_only_ListAllLogSegments_child.
    + unfold emit; simpl; apply app_nil_r.
Qed.

Lemma ListAllLogSegments_ignores_hidden_witness :
  let t := Sample.tool ID_ONLY ["/wals"] in
  let run := ListAllLogSegments Sample.lib t Sample.w0 in
  (forall s, has_dot_prefix s = true -> IsLogFileName Sample.lib s = false)
  /\ ListDir (fs_manager_ t) "/wals" = Ok [".tmp"; "T1"]
  /\ ListDir (fs_manager_ t) "/wals/T1" = Ok [".hidden"; "TAB1"; "TAB1.recovery"]
  /\ run = (OK,
            mkWorld
              [ "Root log directory: /wals" ++ endl;
                "Log directory: /wals/T1/TAB1" ++ endl;
                "Segments in /wals/T1/TAB1:" ++ endl;
                tab ++ "wal-000000001" ++ endl;
                tab ++ "wal-000000002" ++ endl;
                "Log recovery dir found: /wals/T1/TAB1.recovery" ++ endl;
                "Segments in /wals/T1/TAB1.recovery:" ++ endl;
                tab ++ "wal-000000001" ++ endl ]
              [ VLOG 1 "Ignoring hidden file in root log directory .hidden" ])
  /\ fst run
     = fst (ListAllLogSegments Sample.lib (hide_dot_entries t) Sample.w0)
  /\ cout (snd run)
     = cout (snd (ListAllLogSegments Sample.lib (hide_dot_entries t) Sample.w0)).
Proof.
  intros t run.
  assert (Hlog : forall s, has_dot_prefix s = true ->
                           IsLogFileName Sample.lib s = false).
  { intros s Hs; apply has_dot_prefix_spec in Hs; destruct Hs as [rest ->].
    reflexivity. }
  split; [exact Hlog|]; split; [reflexivity|]; split; [reflexivity|].
  split; [reflexivity|].
  exact (proj1 (ListAllLogSegments_ignores_hidden Sample.lib t) Hlog Sample.w0).
Defined.

(** ** The walk up to a child *)

Lemma bind_assoc {A B C} (m : M A) (k : A -> M B) (h : B -> M C) (w : World) :
  bind (bind m k) h w = bind m (fun a => bind (k a) h) w.
Proof.
  unfold bind; destruct (m w) as [[a|c msg] w1]; reflexivity.
Qed.

Lemma for_each_reaches {A} (body : A -> M unit) (pre post : list A) (x : A)
    (w w1 : World) :
  for_each body pre w = (OK, w1) ->
  for_each body (pre ++ x :: post) w = (body x ;; for_each body post) w1.
Proof.
  intros Hpre; now rewrite for_each_app, (bind_Ok _ _ _ _ _ Hpre).
Qed.

Lemma writes_only_ListAllLogSegments_table lib t wals_dir table :
  writes_only (ListAllLogSegments_table lib t wals_dir table).
Proof.
  unfold ListAllLogSegments_table.
  apply writes_only_bind; [apply writes_only_lift_prepend|]; intros children.
  apply writes_only_for_each; intros child.
  apply writes_only_ListAllLogSegments_child.
Qed.

Lemma writes_only_ListAllLogSegments_root lib t wals_dir :
  writes_only (ListAllLogSegments_root lib t wals_dir).
Proof.
  unfold ListAllLogSegments_root, ListAllLogSegments_tables.
  apply writes_only_if; [apply writes_only_fail|].
  apply writes_only_bind; [apply writes_only_print|]; intros _.
  apply writes_only_bind; [apply writes_only_lift_prepend|]; intros tables.
  apply writes_only_for_each; intros table.
  apply writes_only_ListAllLogSegments_table.
Qed.

(** What a computation that only writes leaves on standard output begins
    with what was there. *)
Lemma writes_only_keeps_cout {A} (m : M A) (w : World) :
  writes_only m -> exists out, cout (snd (m w)) = (cout w ++ out)%list.
Proof. intros (r & o & g & Hm); exists o; now rewrite Hm. Qed.

(** C5 (amended).  A child of a table directory that the walk reaches,
    the roots, the tables and the children before it having been walked
    without failure, and whose name does not begin with a dot, is of
    exactly one kind: a recovery directory when its name ends with
    [kWalsRecoveryDirSuffix], a log directory otherwise.
    [ListAllLogSegments] then writes the label of that kind and the path
    of the child, the two labels being different, scans the directory and
    goes on with the rest of the walk. *)
Theorem ListAllLogSegments_labels_reached_child lib t
    roots_before wals_dir roots_after tables_before table tables_after
    before child after w w_root w_table w_child :
  let table_wal_dir := JoinPathSegments lib wals_dir table in
  let path := JoinPathSegments lib table_wal_dir child in
  let ends_with_suffix :=
    exists stem, child = stem ++ kWalsRecoveryDirSuffix lib in
  GetWalRootDirs (fs_manager_ t)
  = (roots_before ++ wals_dir :: roots_after)%list ->
  Exists (fs_manager_ t) wals_dir = true ->
  ListDir (fs_manager_ t) wals_dir
  = Ok (tables_before ++ table :: tables_after)%list ->
  has_dot_prefix table = false ->
  ListDir (fs_manager_ t) table_wal_dir = Ok (before ++ child :: after)%list ->
  has_dot_prefix child = false ->
  for_each (ListAllLogSegments_root lib t) roots_before w = (OK, w_root) ->
  ListAllLogSegments_tables lib t wals_dir tables_before
    (emit ["Root log directory: " ++ wals_dir ++ endl] [] w_root)
  = (OK, w_table) ->
  for_each (ListAllLogSegments_child lib t table_wal_dir) before w_table
  = (OK, w_child) ->
  exists kind : DirKind,
    (kind = RecoveryDir <-> ends_with_suffix)
    /\ (kind = LogDir <-> ~ ends_with_suffix)
    /\ DirKind_label RecoveryDir <> DirKind_label LogDir
    /\ ListAllLogSegments lib t w
       = (ListSegmentsInDir lib t path ;;
          for_each (ListAllLogSegments_child lib t table_wal_dir) after ;;
          ListAllLogSegments_tables lib t wals_dir tables_after ;;
          for_each (ListAllLogSegments_root lib t) roots_after)
           (emit [DirKind_label kind ++ path ++ endl] [] w_child)
    /\ exists out,
         cout (snd (ListAllLogSegments lib t w))
         = (cout w_child
              ++ (DirKind_label kind ++ path ++ endl)%string :: out)%list.
Proof.
  intros table_wal_dir path ends_with_suffix
         Hroots Hexists Htables Htable Hchildren Hchild Hw_root Hw_table
         Hw_child.
  destruct (ListAllLogSegments_child_labelled lib t table_wal_dir child w_child
              Hchild) as (kind & Hrec & Hlog & Hrun & Hlabels).
  fold path in Hrun.
  exists kind; split; [exact Hrec|]; split; [exact Hlog|].
  split; [exact Hlabels|].
  assert (Hwalk :
    ListAllLogSegments lib t w
    = (ListSegmentsInDir lib t path ;;
       for_each (ListAllLogSegments_child lib t table_wal_dir) after ;;
       ListAllLogSegments_tables lib t wals_dir tables_after ;;
       for_each (ListAllLogSegments_root lib t) roots_after)
        (emit [DirKind_label kind ++ path ++ endl] [] w_child)).
  { unfold ListAllLogSegments; rewrite Hroots.
    rewrite (for_each_reaches _ _ _ _ _ _ Hw_root).
    unfold bind at 1.
    rewrite (ListAllLogSegments_root_listed lib t wals_dir _ w_root Hexists
               Htables).
    unfold ListAllLogSegments_tables in *; unfold remove_if in *.
    rewrite filter_app; simpl filter; rewrite Htable; simpl negb; cbv iota.
    rewrite (for_each_reaches _ _ _ _ _ _ Hw_table).
    unfold bind at 1.
    rewrite (ListAllLogSegments_table_listed lib t wals_dir table _ w_table
               Hchildren).
    fold table_wal_dir.
    rewrite (for_each_reaches _ _ _ _ _ _ Hw_child).
    unfold bind at 1; rewrite Hrun.
    unfold bind.
    destruct (ListSegmentsInDir lib t path _) as [[[]|c msg] v1]; [|reflexivity].
    destruct (for_each (ListAllLogSegments_child lib t table_wal_dir) after v1)
      as [[[]|c msg] v2]; [|reflexivity].
    destruct (for_each (ListAllLogSegments_table lib t wals_dir) _ v2)
      as [[[]|c msg] v3]; reflexivity. }
  split; [exact Hwalk|].
  rewrite Hwalk.
  match goal with
  | |- exists out, cout (snd (?m ?v)) = _ =>
      destruct (writes_only_keeps_cout m v) as [out Hout]
  end.
  { apply writes_only_bind; [apply writes_only_ListSegmentsInDir|]; intros _.
    apply writes_only_bind;
      [apply writes_only_for_each; intros x;
       apply writes_only_ListAllLogSegments_child|]; intros _.
    apply writes_only_bind;
      [unfold ListAllLogSegments_tables; apply writes_only_for_each; intros x;
       apply writes_only_ListAllLogSegments_table|]; intros _.
    apply writes_only_for_each; intros x.
    apply writes_only_ListAllLogSegments_root. }
  exists out; rewrite Hout; unfold emit; simpl.
  now rewrite <- app_assoc.
Qed.

Lemma ListAllLogSegments_labels_reached_child_witness :
  let t := Sample.tool ID_ONLY ["/wals"] in
  let w_table := emit ["Root log directory: /wals" ++ endl] [] Sample.w0 in
  let w_child :=
    snd (for_each (ListAllLogSegments_child Sample.lib t "/wals/T1")
           [".hidden"; "TAB1"] w_table) in
  ListDir (fs_manager_ t) "/wals" = Ok ([".tmp"] ++ "T1" :: [])%list
  /\ ListDir (fs_manager_ t) "/wals/T1"
     = Ok ([".hidden"; "TAB1"] ++ "TAB1.recovery" :: [])%list
  /\ for_each (ListAllLogSegments_child Sample.lib t "/wals/T1")
       [".hidden"; "TAB1"] w_table = (OK, w_child)
  /\ cout (snd (ListAllLogSegments Sample.lib t Sample.w0))
     = [ "Root log directory: /wals" ++ endl;
         "Log directory: /wals/T1/TAB1" ++ endl;
         "Segments in /wals/T1/TAB1:" ++ endl;
         tab ++ "wal-000000001" ++ endl;
         tab ++ "wal-000000002" ++ endl;
         "Log recovery dir found: /wals/T1/TAB1.recovery" ++ endl;
         "Segments in /wals/T1/TAB1.recovery:" ++ endl;
         tab ++ "wal-000000001" ++ endl ]
  /\ exists kind : DirKind,
       (kind = RecoveryDir <-> exists stem, "TAB1.recovery" = stem ++ ".recovery")
       /\ exists out,
            cout (snd (ListAllLogSegments Sample.lib t Sample.w0))
            = (cout w_child
                 ++ (DirKind_label kind ++ "/wals/T1/TAB1.recovery" ++ endl)%string
                 :: out)%list.
Proof.
  intros t w_table w_child.
  split; [reflexivity|]; split; [reflexivity|]; split; [reflexivity|].
  split; [reflexivity|].
  destruct (ListAllLogSegments_labels_reached_child Sample.lib t
              [] "/wals" [] [".tmp"] "T1" [] [".hidden"; "TAB1"]
              "TAB1.recovery" [] Sample.w0 Sample.w0 w_table w_child
              eq_refl eq_refl eq_refl eq_refl eq_refl eq_refl eq_refl eq_refl
              eq_refl)
    as (kind & Hrec & _ & _ & _ & Hout).
  exists kind; split; [exact Hrec | exact Hout].
Defined.

(** C5 as stated fails: the second entry of the table directory does not
    begin with a dot and ends with the recovery suffix, yet it is given no
    kind and no label: at [HEADERS_ONLY] a segment of the first entry
    cannot be opened, and the walk returns that failure before it gets to
    the second entry. *)
Lemma ListAllLogSegments_child_after_failure_not_labelled :
  let t := Interrupted.tool HEADERS_ONLY in
  let run := ListAllLogSegments Sample.lib t Sample.w0 in
  GetWalRootDirs (fs_manager_ t) = ["/wals"]
  /\ ListDir (fs_manager_ t) "/wals" = Ok ["T1"]
  /\ ListDir (fs_manager_ t) "/wals/T1" = Ok ["TAB2"; "TAB2.recovery"]
  /\ has_dot_prefix "TAB2.recovery" = false
  /\ HasSuffixString "TAB2.recovery" (kWalsRecoveryDirSuffix Sample.lib) = true
  /\ run = (Err IOError ("Unexpected error reading log segment "
                         ++ "/wals/T1/TAB2/wal-000000001: Permission denied"),
            mkWorld [ "Root log directory: /wals" ++ endl;
                      "Log directory: /wals/T1/TAB2" ++ endl;
                      "Segments in /wals/T1/TAB2:" ++ endl;
                      "Segment: wal-000000001" ++ endl ] [])
  /\ existsb (fun chunk => contains chunk "TAB2.recovery") (cout (snd run))
     = false.
Proof. repeat split. Qed.

(** ** When the walk returns OK *)

Lemma for_each_OK_iff {A} (body : A -> M unit) (fine : A -> bool) (l : list A) :
  (forall x w, fst (body x w) = OK <-> fine x = true) ->
  forall w, fst (for_each body l w) = OK <-> forallb fine l = true.
Proof.
  intros Hbody; induction l as [|x l IH]; intros w; simpl.
  - split; reflexivity.
  - unfold bind; pose proof (Hbody x w) as Hx.
    destruct (body x w) as [[[]|c msg] w1]; simpl in Hx.
    + rewrite (proj1 Hx eq_refl); apply IH.
    + destruct (fine x); simpl; split; intros H; try discriminate H.
      now apply Hx.
Qed.

Lemma outcome_OK_iff {A} (st : A -> Status) (l : list A) :
  outcome st l = OK <-> forallb (fun x => ok (st x)) l = true.
Proof.
  induction l as [|x l IH]; simpl; [split; reflexivity|].
  destruct (st x) as [[]|c msg]; simpl; [exact IH|].
  split; intros H; discriminate H.
Qed.

Lemma ok_header_status t path :
  ok (header_status t path)
  = tolerated (ReadableLogSegment_Open (env (fs_manager_ t)) path).
Proof.
  unfold header_status, tolerated.
  now destruct (ReadableLogSegment_Open (env (fs_manager_ t)) path)
    as [segment|[] msg].
Qed.

Lemma forallb_same {A} (f g : A -> bool) (l : list A) :
  (forall x, f x = g x) -> forallb f l = forallb g l.
Proof.
  intros Hfg; induction l as [|x l IH]; simpl; [reflexivity|].
  now rewrite Hfg, IH.
Qed.

Lemma ListSegmentsInDir_OK_iff lib t dir w :
  fst (ListSegmentsInDir lib t dir w) = OK <-> segments_dir_fine lib t dir = true.
Proof.
  unfold segments_dir_fine.
  destruct (ListDir (fs_manager_ t) dir) as [segments|c msg] eqn:Hls.
  - destruct (DetailLevel_geb (detail_level_ t) HEADERS_ONLY) eqn:Hlevel.
    + rewrite (ListSegmentsInDir_full lib t dir segments w Hls Hlevel).
      cbn [fst negb orb]; rewrite outcome_OK_iff.
      unfold segment_status.
      rewrite (forallb_same _
                 (fun s =>
                    tolerated (ReadableLogSegment_Open (env (fs_manager_ t))
                                 (JoinPathSegments lib dir s))))
        by (intros s; apply ok_header_status).
      reflexivity.
    + rewrite (ListSegmentsInDir_id lib t dir segments w Hls Hlevel).
      split; reflexivity.
  - rewrite (ListSegmentsInDir_unlistable lib t dir c msg w Hls).
    split; intros H; discriminate H.
Qed.

Lemma ListAllLogSegments_child_OK_iff lib t table_wal_dir child w :
  fst (ListAllLogSegments_child lib t table_wal_dir child w) = OK
  <-> child_fine lib t table_wal_dir child = true.
Proof.
  unfold child_fine; destruct (has_dot_prefix child) eqn:Hdot.
  - rewrite (ListAllLogSegments_child_hidden lib t _ child w Hdot).
    split; reflexivity.
  - rewrite (ListAllLogSegments_child_visible lib t _ child w Hdot).
    apply ListSegmentsInDir_OK_iff.
Qed.

Lemma ListAllLogSegments_table_OK_iff lib t wals_dir table w :
  fst (ListAllLogSegments_table lib t wals_dir table w) = OK
  <-> table_fine lib t wals_dir table = true.
Proof.
  unfold table_fine.
  destruct (ListDir (fs_manager_ t) (JoinPathSegments lib wals_dir table))
    as [children|c msg] eqn:Hls.
  - rewrite (ListAllLogSegments_table_listed lib t wals_dir table _ w Hls).
    apply for_each_OK_iff; intros child w1.
    apply ListAllLogSegments_child_OK_iff.
  - rewrite (ListAllLogSegments_table_unlistable lib t wals_dir table c msg w
               Hls).
    split; intros H; discriminate H.
Qed.

Lemma ListAllLogSegments_root_OK_iff lib t wals_dir w :
  fst (ListAllLogSegments_root lib t wals_dir w) = OK
  <-> root_fine lib t wals_dir = true.
Proof.
  unfold root_fine.
  destruct (Exists (fs_manager_ t) wals_dir) eqn:Hexists.
  - destruct (ListDir (fs_manager_ t) wals_dir) as [tables|c msg] eqn:Hls.
    + rewrite (ListAllLogSegments_root_listed lib t wals_dir tables w Hexists
                 Hls).
      unfold ListAllLogSegments_tables.
      apply for_each_OK_iff; intros table w1.
      apply ListAllLogSegments_table_OK_iff.
    + unfold ListAllLogSegments_root; rewrite Hexists, Hls; cbn [negb].
      unfold bind; rewrite print_emit; cbn [lift_prepend lift CloneAndPrepend fst].
      split; intros H; discriminate H.
  - rewrite (ListAllLogSegments_root_missing lib t wals_dir w Hexists).
    split; intros H; discriminate H.
Qed.

(** X13.  What makes [ListAllLogSegments] fail, and nothing else.  The
    walk returns OK exactly when every WAL root exists and lists, every
    table directory of a root whose name does not begin with a dot lists,
    every entry of such a table directory whose name does not begin with
    a dot lists and, at [HEADERS_ONLY] and above, every log file of such
    an entry opens or fails to open as Uninitialized or Corruption. *)
Theorem ListAllLogSegments_succeeds lib t w :
  fst (ListAllLogSegments lib t w) = OK <-> walk_fine lib t = true.
Proof.
  unfold ListAllLogSegments, walk_fine.
  apply for_each_OK_iff; intros root w1.
  apply ListAllLogSegments_root_OK_iff.
Qed.

Lemma ListAllLogSegments_succeeds_witness :
  walk_fine Sample.lib (Sample.tool HEADERS_ONLY ["/wals"]) = true
  /\ fst (ListAllLogSegments Sample.lib (Sample.tool HEADERS_ONLY ["/wals"])
            Sample.w0) = OK
  /\ walk_fine Sample.lib (Damaged.tool ID_ONLY) = false
  /\ fst (ListAllLogSegments Sample.lib (Damaged.tool ID_ONLY) Sample.w0) <> OK
  /\ walk_fine Sample.lib (Interrupted.tool ID_ONLY) = true
  /\ walk_fine Sample.lib (Interrupted.tool HEADERS_ONLY) = false.
Proof.
  split; [reflexivity|]; split.
  { exact (proj2 (ListAllLogSegments_succeeds Sample.lib
                    (Sample.tool HEADERS_ONLY ["/wals"]) Sample.w0) eq_refl). }
  split; [reflexivity|]; split.
  { intros Hok.
    apply (ListAllLogSegments_succeeds Sample.lib (Damaged.tool ID_ONLY)
             Sample.w0) in Hok.
    discriminate Hok. }
  split; reflexivity.
Defined.
